(** * Distributed Schnorr signatures: package [dss] of kyber (share/dss/dss.go)

    A shallow embedding of the signing session of [dss.go] and the
    properties of it that the specification states.

    Conventions of the embedding.
    - Go's [int] is [Z]; the package only compares and stores integers.
    - [[]byte] is [list byte]; a [hash.Hash] that is written to and then
      summed is its digest function applied to the bytes written, in order.
    - [map[int]bool] is [gmap Z bool]; slices are lists; indexing a slice
      out of its range panics, as the Go runtime does.
    - A call that returns [(v, ok)] is an [option]; a call that returns
      [(v, error)] with exactly one of the two set is a [result];
      [DSS.PartialSig], which returns both, returns a pair.
    - A method with receiver [*DSS] is a state transformer over the
      session record ([method]); a panic leaves the record as it is when
      the panic is raised.
    - Pointers held by the records ([*share.PriShare], the interface
      values) are taken to be non-nil and are embedded by value.
    - The group, its hash and the packages [share], [sign/schnorr],
      [sign/eddsa] and [crypto/sha512] are not part of dss.go: they are the
      operations of the classes [Suite] and [Packages]. *)

From Stdlib Require Import ZArith List String.
From Stdlib.Strings Require Import Byte.
From stdpp Require Import base tactics option list gmap.

Local Open Scope Z_scope.

(** ** Values shared with the collaborators *)

(** An [error] value, as made by [errors.New]. *)
Inductive error : Type :=
| errors_New (msg : string).

(** A run-time panic of the Go runtime. *)
Inductive panic : Type :=
| index_out_of_range (i : Z) (len : nat).

(** Outcome of a call that may panic. *)
Inductive go (A : Type) : Type :=
| Done (a : A)
| Panic (p : panic).
Arguments Done {A} a.
Arguments Panic {A} p.

(** Outcome of a call that returns [(v, error)]. *)
Inductive result (A : Type) : Type :=
| Ok (a : A)
| Err (e : error).
Arguments Ok {A} a.
Arguments Err {A} e.

(** [bytes.Equal]. *)
Fixpoint bytes_Equal (a b : list byte) : bool :=
  match a, b with
  | [], [] => true
  | x :: a', y :: b' => Byte.eqb x y && bytes_Equal a' b'
  | _, _ => false
  end.

(** [s[i]] on a slice: panics outside [0 <= i < len(s)]. *)
Definition slice_index {A : Type} (s : list A) (i : Z) : go A :=
  if bool_decide (0 <= i) then
    match s !! Z.to_nat i with
    | Some x => Done x
    | None => Panic (index_out_of_range i (length s))
    end
  else Panic (index_out_of_range i (length s)).

(** ** The suite: [kyber.Group], [kyber.HashFactory] *)

Class Suite : Type := {
  Scalar : Type;
  Point : Type;
  (** [Scalar().Mul(a, b)], [Scalar().Add(a, b)], [Scalar().SetBytes(b)] *)
  Scalar_Mul : Scalar -> Scalar -> Scalar;
  Scalar_Add : Scalar -> Scalar -> Scalar;
  Scalar_SetBytes : list byte -> Scalar;
  (** the bytes [s.MarshalTo(w)] writes to [w] *)
  Scalar_MarshalTo : Scalar -> list byte;
  (** [Point().Base()], [Point().Mul(s, p)] for a non-nil [p],
      [Point().Add(a, b)], [a.Equal(b)] *)
  Point_Base : Point;
  Point_Mul : Scalar -> Point -> Point;
  Point_Add : Point -> Point -> Point;
  Point_Equal : Point -> Point -> bool;
  (** the bytes [p.MarshalTo(w)] writes to [w] *)
  Point_MarshalTo : Point -> list byte;
  (** [h := s.Hash(); h.Write(b); h.Sum(nil)] *)
  Hash_Sum : list byte -> list byte;
}.

(** [Point().Mul(s, p)]: a nil [p] stands for the base point. *)
Definition Mul `{Suite} (s : Scalar) (p : option Point) : Point :=
  Point_Mul s (default Point_Base p).

(** The laws of the group that the specification takes for granted:
    points are compared by value and their addition commutes. *)
Class SuiteLaws (S : Suite) : Prop := {
  Point_Equal_eq : forall p q : Point, Point_Equal p q = true <-> p = q;
  Point_Add_comm : forall p q : Point, Point_Add p q = Point_Add q p;
}.

(** ** [share.PriShare], [share.PubShare], [DistKeyShare] *)

Module PriShare.
Record t `{Suite} : Type := mk { I : Z; V : Scalar }.
End PriShare.

Module PubShare.
Record t `{Suite} : Type := mk { I : Z; V : Point }.
End PubShare.

(** The interface [DistKeyShare]: its two getters. *)
Module DistKeyShare.
Record t `{Suite} : Type := mk {
  PriShare : PriShare.t;
  Commitments : list Point;
  }.
End DistKeyShare.

(** ** The packages dss.go imports *)

Class Packages (S : Suite) : Type := {
(** [h := sha512.New(); h.Write(b); h.Sum(nil)] *)
  sha512_Sum : list byte -> list byte;
(** the method [Hash(suite)] of [share.PriShare] *)
  PriShare_Hash : PriShare.t -> list byte;
(** [share.PubPoly], [share.NewPubPoly(suite, b, commits)], [p.Eval(i)] *)
  PubPoly : Type;
  NewPubPoly : Point -> list Point -> PubPoly;
  PubPoly_Eval : PubPoly -> Z -> PubShare.t;
(** [share.RecoverSecret(suite, shares, t, n)] *)
  RecoverSecret : list PriShare.t -> Z -> Z -> result Scalar;
(** [schnorr.Sign(suite, private, msg)]; it draws from the random stream
    of the suite, the [Entropy] it consumes is an argument here *)
  Entropy : Type;
  schnorr_Sign : Entropy -> Scalar -> list byte -> result (list byte);
(** [schnorr.Verify(suite, public, msg, sig)]: [None] is a nil error *)
  schnorr_Verify : Point -> list byte -> list byte -> option error;
(** [eddsa.Verify(public, msg, sig)] *)
  eddsa_Verify : Point -> list byte -> list byte -> option error;
}.

(** ** [PartialSig] *)

Module PartialSig.
Record t `{Suite} : Type := mk {
  Partial : PriShare.t;
  SessionID : list byte;
  Signature : list byte;
  }.

Section Methods.
Context `{P : Packages}.

(** [func (ps *PartialSig) Hash(s Suite) []byte] *)
Definition Hash (ps : t) : list byte :=
    Hash_Sum (PriShare_Hash (Partial ps) ++ SessionID ps).
End Methods.
End PartialSig.

(** ** Package-level helpers *)

Section Helpers.
Context `{S : Suite}.

(** [func findPub(list []kyber.Point, i int) (kyber.Point, bool)] *)
Definition findPub (list : list Point) (i : Z) : go (option Point) :=
  if bool_decide (i >= Z.of_nat (length list)) then Done None
  else match slice_index list i with
       | Done p => Done (Some p)
       | Panic e => Panic e
       end.

(** The bytes written by [for _, p := range l { p.MarshalTo(h) }]. *)
Fixpoint marshal_all (l : list Point) : list byte :=
  match l with
  | [] => []
  | p :: l' => Point_MarshalTo p ++ marshal_all l'
  end.

(** [func sessionID(s Suite, a, b DistKeyShare) []byte] *)
Definition sessionID (a b : DistKeyShare.t) : list byte :=
  Hash_Sum (marshal_all (DistKeyShare.Commitments a)
            ++ marshal_all (DistKeyShare.Commitments b)).

(** The loop of [NewDSS]: [(found, i)] after scanning [participants]
    from position [j]. *)
Fixpoint scan (public : Point) (participants : list Point) (j : Z) : bool * Z :=
  match participants with
  | [] => (false, 0)
  | p :: rest =>
      if Point_Equal p public then (true, j) else scan public rest (j + 1)
  end.
End Helpers.

(** ** The session [DSS] *)

Module DSS.
Record t `{P : Packages} : Type := mk {
  secret : Scalar;
  public : Point;
  index : Z;
  participants : list Point;
  T : Z;
  long : DistKeyShare.t;
  random : DistKeyShare.t;
  longPoly : PubPoly;
  randomPoly : PubPoly;
  msg : list byte;
  partials : list PriShare.t;
  partialsIdx : gmap Z bool;
  signed : bool;
  sessionID : list byte;
  }.

Section Methods.
Context `{P : Packages}.

(** A method with receiver [*DSS]. *)
Definition method (A : Type) : Type := t -> go A * t.

Definition ret {A} (a : A) : method A := fun d => (Done a, d).
Definition bind {A B} (m : method A) (k : A -> method B) : method B :=
    fun d => match m d with
             | (Done a, d') => k a d'
             | (Panic e, d') => (Panic e, d')
             end.
Definition get : method t := fun d => (Done d, d).
Definition put (d' : t) : method unit := fun _ => (Done tt, d').
(** a call that reads the session only *)
Definition read {A} (f : t -> go A) : method A := fun d => (f d, d).

(** the three assignments of the methods *)
Definition set_partialsIdx (m : gmap Z bool) (d : t) : t :=
    mk _ _ (secret d) (public d) (index d) (participants d) (T d) (long d)
       (random d) (longPoly d) (randomPoly d) (msg d) (partials d) m
       (signed d) (sessionID d).
Definition set_partials (l : list PriShare.t) (d : t) : t :=
    mk _ _ (secret d) (public d) (index d) (participants d) (T d) (long d)
       (random d) (longPoly d) (randomPoly d) (msg d) l (partialsIdx d)
       (signed d) (sessionID d).
Definition set_signed (b : bool) (d : t) : t :=
    mk _ _ (secret d) (public d) (index d) (participants d) (T d) (long d)
       (random d) (longPoly d) (randomPoly d) (msg d) (partials d)
       (partialsIdx d) b (sessionID d).

Local Notation "'let!' x ':=' m 'in' k" := (bind m (fun x => k))
  (at level 10, x name, m at level 100, k at level 200).

(** [func (d *DSS) hashSig() kyber.Scalar]: H(R || A || msg) *)
Definition hashSig : method Scalar :=
  let! d := get in
  let! R := read (fun _ => slice_index (DistKeyShare.Commitments (random d)) 0) in
  let! A := read (fun _ => slice_index (DistKeyShare.Commitments (long d)) 0) in
  ret (Scalar_SetBytes
         (sha512_Sum (Point_MarshalTo R ++ Point_MarshalTo A ++ msg d))).

(** [func (d *DSS) PartialSig()], returning a [*PartialSig] and an
    [error]; [r] is what
    [schnorr.Sign] draws from the random stream during the call. *)
Definition PartialSig (r : Entropy) : method (PartialSig.t * option error) :=
  let! d := get in
  let alpha := PriShare.V (DistKeyShare.PriShare (long d)) in
  let beta := PriShare.V (DistKeyShare.PriShare (random d)) in
  let! hash := hashSig in
  let right := Scalar_Mul hash alpha in
  let Partial := PriShare.mk _ (index d) (Scalar_Add right beta) in
  let ps0 := PartialSig.mk _ Partial (sessionID d) [] in
  let signature :=
    match schnorr_Sign r (secret d) (PartialSig.Hash ps0) with
    | Ok sig => (sig, None)
    | Err err => ([], Some err)
    end in
  let ps := PartialSig.mk _ Partial (sessionID d) (fst signature) in
  let! _ :=
    (if negb (signed d) then
       put (set_signed true
              (set_partials (partials d ++ [PartialSig.Partial ps])
                 (set_partialsIdx (<[index d := true]> (partialsIdx d)) d)))
     else ret tt) in
  ret (ps, snd signature).

(** [func (d *DSS) ProcessPartialSig(ps *PartialSig) error]; [None] is
    the nil error. *)
Definition ProcessPartialSig (ps : PartialSig.t) : method (option error) :=
  let! d := get in
  let! found :=
    read (fun _ => findPub (participants d) (PriShare.I (PartialSig.Partial ps))) in
  match found with
  | None => ret (Some (errors_New "dss: partial signature with invalid index"))
  | Some public =>
    match schnorr_Verify public (PartialSig.Hash ps) (PartialSig.Signature ps) with
    | Some err => ret (Some err)
    | None =>
      if negb (bytes_Equal (PartialSig.SessionID ps) (sessionID d)) then
        ret (Some (errors_New "dss: session id do not match"))
      else
        match partialsIdx d !! PriShare.I (PartialSig.Partial ps) with
        | Some _ =>
            ret (Some (errors_New
                         "dss: partial signature already received from peer"))
        | None =>
          let! hash := hashSig in
          let idx := PriShare.I (PartialSig.Partial ps) in
          let randShare := PubPoly_Eval (randomPoly d) idx in
          let longShare := PubPoly_Eval (longPoly d) idx in
          let right := Mul hash (Some (PubShare.V longShare)) in
          let right := Point_Add (PubShare.V randShare) right in
          let left := Mul (PriShare.V (PartialSig.Partial ps)) None in
          if negb (Point_Equal left right) then
            ret (Some (errors_New "dss: partial signature not valid"))
          else
            let! _ :=
              put (set_partials (partials d ++ [PartialSig.Partial ps])
                     (set_partialsIdx
                        (<[PriShare.I (PartialSig.Partial ps) := true]>
                           (partialsIdx d)) d)) in
            ret None
        end
    end
  end.

(** [func (d *DSS) EnoughPartialSig() bool] *)
Definition EnoughPartialSig : method bool :=
  let! d := get in
  ret (bool_decide (Z.of_nat (length (partials d)) >= T d)).

(** [func (d *DSS) Signature() ([]byte, error)].  The line the Go code
    prints on standard output when the recovery fails is not session
    state and is left out. *)
Definition Signature : method (result (list byte)) :=
  let! enough := EnoughPartialSig in
  if negb enough then
    ret (Err (errors_New "dkg: not enough partial signatures to sign"))
  else
    let! d := get in
    match RecoverSecret (partials d) (T d)
            (Z.of_nat (length (participants d))) with
    | Err err => ret (Err err)
    | Ok gamma =>
      let! R := read (fun _ => slice_index (DistKeyShare.Commitments (random d)) 0) in
      ret (Ok (Point_MarshalTo R ++ Scalar_MarshalTo gamma))
    end.
End Methods.
End DSS.

Section Package.
Context `{P : Packages}.

(** [func NewDSS(suite, secret, participants, long, random, msg, T)],
    returning a [*DSS] or an [error]. *)
Definition NewDSS (secret : Scalar) (participants : list Point)
    (long random : DistKeyShare.t) (msg : list byte) (T : Z) : result DSS.t :=
  let public := Mul secret None in
  let found_i := scan public participants 0 in
  if negb (fst found_i) then
    Err (errors_New "dss: public key not found in list of participants")
  else
    Ok (DSS.mk _ _ secret public (snd found_i) participants T long random
          (NewPubPoly Point_Base (DistKeyShare.Commitments long))
          (NewPubPoly Point_Base (DistKeyShare.Commitments random))
          msg [] ∅ false (sessionID long random)).

(** [func Verify(public kyber.Point, msg, sig []byte) error] *)
Definition Verify (public : Point) (msg sig : list byte) : option error :=
  eddsa_Verify public msg sig.
End Package.

(** ** Vocabulary of the statements *)

Section Vocabulary.
Context {S : Suite} {P : Packages S}.

(** The session once the share [s] is recorded:
    [d.partialsIdx[s.I] = true; d.partials = append(d.partials, s)]. *)
Definition recorded (s : PriShare.t) (d : DSS.t) : DSS.t :=
  DSS.set_partials (DSS.partials d ++ [s])
    (DSS.set_partialsIdx (<[PriShare.I s := true]> (DSS.partialsIdx d)) d).

(** The accepted shares the session holds under the index [i]. *)
Definition held (i : Z) (d : DSS.t) : list PriShare.t :=
  filter (fun s => PriShare.I s = i) (DSS.partials d).

(** The share local issuance computes for the challenge [hash]:
    [hash * alpha + beta] under the index of the owner. *)
Definition response (d : DSS.t) (hash : Scalar) : PriShare.t :=
  PriShare.mk _ (DSS.index d)
    (Scalar_Add
       (Scalar_Mul hash (PriShare.V (DistKeyShare.PriShare (DSS.long d))))
       (PriShare.V (DistKeyShare.PriShare (DSS.random d)))).

(** The public commitments to the long-term and to the one-time share of
    participant [i]: the two public polynomials evaluated at [i]. *)
Definition longShare (d : DSS.t) (i : Z) : Point :=
  PubShare.V (PubPoly_Eval (DSS.longPoly d) i).
Definition randShare (d : DSS.t) (i : Z) : Point :=
  PubShare.V (PubPoly_Eval (DSS.randomPoly d) i).
End Vocabulary.

(** ** Sequences of calls *)

Section Calls.
Context {S : Suite} {P : Packages S}.

(** A call of a method of the session by its user. *)
Inductive call : Type :=
| CallPartialSig (r : Entropy)
| CallProcessPartialSig (ps : PartialSig.t)
| CallEnoughPartialSig
| CallSignature.

(** The session after a call.  A call that panics leaves the session as
    it was when the panic was raised; the user that recovers from the panic
    goes on with that session. *)
Definition after_call (c : call) (d : DSS.t) : DSS.t :=
  match c with
  | CallPartialSig r => snd (DSS.PartialSig r d)
  | CallProcessPartialSig ps => snd (DSS.ProcessPartialSig ps d)
  | CallEnoughPartialSig => snd (DSS.EnoughPartialSig d)
  | CallSignature => snd (DSS.Signature d)
  end.

Definition after_calls (cs : list call) (d : DSS.t) : DSS.t :=
  fold_left (fun d c => after_call c d) cs d.

(** [d'] is [d] up to the three fields the methods assign. *)
Definition same_configuration (d d' : DSS.t) : Prop :=
  DSS.set_signed (DSS.signed d)
    (DSS.set_partials (DSS.partials d)
       (DSS.set_partialsIdx (DSS.partialsIdx d) d')) = d.

(** The accepted set holds exactly the indices of the accepted list. *)
Definition indexed (d : DSS.t) : Prop :=
  forall i : Z,
    is_Some (DSS.partialsIdx d !! i) <->
    exists s, s ∈ DSS.partials d /\ PriShare.I s = i.

(** The accepted list holds at most one share per index. *)
Definition distinct (d : DSS.t) : Prop :=
  NoDup (map PriShare.I (DSS.partials d)).

(** No partial signature with the index [i] is submitted before the first
    call of [PartialSig]. *)
Fixpoint issue_first (i : Z) (cs : list call) : Prop :=
  match cs with
  | [] => True
  | CallPartialSig _ :: _ => True
  | CallProcessPartialSig ps :: cs' =>
      PriShare.I (PartialSig.Partial ps) <> i /\ issue_first i cs'
  | _ :: cs' => issue_first i cs'
  end.

End Calls.

(** What the protocol takes for granted of its collaborators: the map
    from scalars to multiples of the base point is linear, and a signature
    made by [schnorr.Sign] with a key verifies under the public point of
    that key. *)
Class SchnorrLaws (S : Suite) (P : Packages S) : Prop := {
  Mul_Add : forall a b : Scalar,
    Mul (Scalar_Add a b) None = Point_Add (Mul a None) (Mul b None);
  Mul_Mul : forall h a : Scalar,
    Mul (Scalar_Mul h a) None = Mul h (Some (Mul a None));
  Sign_Verify : forall (r : Entropy) (x : Scalar) (m sig : list byte),
    schnorr_Sign r x m = Ok sig -> schnorr_Verify (Mul x None) m sig = None;
}.

(** ** A small instance to run the session on

    The additive group of integers modulo 251 with base point 1; a point
    is the byte holding its residue.  Both hashes are the identity on byte
    strings; [share] interpolates over the field of 251 elements and
    [schnorr] and [eddsa] are Schnorr's scheme over this group.  The
    instance is used to run the definitions on concrete sessions. *)

Module Toy.

Definition q : Z := 251.

Definition byte_of_Z (z : Z) : byte :=
  default x00 (Byte.of_N (Z.to_N (z mod 256))).

Definition Z_of_byte (b : byte) : Z := Z.of_N (Byte.to_N b).

(** little-endian value of a byte string, reduced modulo [q] *)
Definition scalar_of_bytes (l : list byte) : Z :=
  fold_right (fun b acc => Z_of_byte b + 256 * acc) 0 l mod q.

Definition point_of_Z (z : Z) : byte := byte_of_Z (z mod q).

#[export] Instance suite : Suite := {|
  Scalar := Z;
  Point := byte;
  Scalar_Mul a b := (a * b) mod q;
  Scalar_Add a b := (a + b) mod q;
  Scalar_SetBytes := scalar_of_bytes;
  Scalar_MarshalTo s := [byte_of_Z (s mod q)];
  Point_Base := point_of_Z 1;
  Point_Mul s p := point_of_Z (s * Z_of_byte p);
  Point_Add a b := point_of_Z (Z_of_byte a + Z_of_byte b);
  Point_Equal := Byte.eqb;
  Point_MarshalTo p := [p];
  Hash_Sum l := l;
|}.

(** inverse modulo the prime [q], by Fermat's little theorem *)
Definition inv (a : Z) : Z := (a ^ (q - 2)) mod q.

(** Horner evaluation of the committed polynomial at [1 + i]. *)
Definition eval (commits : list byte) (i : Z) : byte :=
  fold_right (fun c v => Point_Add (Point_Mul (1 + i) v) c) (point_of_Z 0) commits.

(** Lagrange basis at the origin for the abscissa [xi] among [xs]. *)
Definition basis (xi : Z) (xs : list Z) : Z :=
  fold_right
    (fun xj acc => if Z.eqb xj xi then acc else (acc * (xj * inv (xj - xi))) mod q)
    1 xs.

Definition recover (shares : list PriShare.t) (t n : Z) : result Z :=
  if bool_decide (Z.of_nat (length shares) < t) then
    Err (errors_New "share: not enough shares to recover secret")
  else
    let used := take (Z.to_nat t) shares in
    let xs := map (fun s => 1 + PriShare.I s) used in
    Ok (fold_right
          (fun s acc => (acc + PriShare.V s * basis (1 + PriShare.I s) xs) mod q)
          0 used).

(** Schnorr's signature: [R || s] with [s = k + x * H(public || R || msg)]. *)
Definition sign (r : list byte) (x : Z) (msg : list byte) : result (list byte) :=
  match r with
  | [] => Err (errors_New "schnorr: random stream exhausted")
  | _ =>
    let k := scalar_of_bytes r in
    let R := Mul k None in
    let h := scalar_of_bytes (Point_MarshalTo (Mul x None) ++ Point_MarshalTo R ++ msg) in
    Ok (Point_MarshalTo R ++ Scalar_MarshalTo (Scalar_Add k (Scalar_Mul x h)))
  end.

(** Schnorr's verification with the challenge [H (first || second || msg)]. *)
Definition verify (challenge : byte -> byte -> list byte -> Z)
    (public : byte) (msg sig : list byte) : option error :=
  match sig with
  | [R; s] =>
    if Byte.eqb (Mul (Z_of_byte s) None)
         (Point_Add R (Point_Mul (challenge public R msg) public))
    then None
    else Some (errors_New "schnorr: invalid signature")
  | _ => Some (errors_New "schnorr: signature of invalid length")
  end.

#[export] Instance packages : Packages suite := {|
  sha512_Sum l := l;
  PriShare_Hash s := [byte_of_Z (PriShare.I s); byte_of_Z (PriShare.V s)];
  PubPoly := byte * list byte;
  NewPubPoly b commits := (b, commits);
  PubPoly_Eval p i := PubShare.mk _ i (eval (snd p) i);
  RecoverSecret := recover;
  Entropy := list byte;
  schnorr_Sign := sign;
  schnorr_Verify :=
    verify (fun A R m => scalar_of_bytes (Point_MarshalTo A ++ Point_MarshalTo R ++ m));
  eddsa_Verify :=
    verify (fun A R m => scalar_of_bytes (Point_MarshalTo R ++ Point_MarshalTo A ++ m));
|}.

(** Three participants, threshold two.  The long-term secret is shared by
    [17 + 5 x], the one-time secret by [101 + 33 x]; participant [i] holds
    the values at [1 + i] and signs its messages with the key [keys !! i]. *)
Definition keys : list Z := [3; 7; 11].
Definition participants : list byte := map (fun x => Mul x None) keys.
Definition long_commits : list byte := [point_of_Z 17; point_of_Z 5].
Definition random_commits : list byte := [point_of_Z 101; point_of_Z 33].

Definition long (i : Z) : DistKeyShare.t :=
  DistKeyShare.mk _ (PriShare.mk _ i ((17 + 5 * (1 + i)) mod q)) long_commits.
Definition random (i : Z) : DistKeyShare.t :=
  DistKeyShare.mk _ (PriShare.mk _ i ((101 + 33 * (1 + i)) mod q)) random_commits.

Definition message : list byte := [x68; x69].

(** the session of participant [i] with key [x] and threshold [T] *)
Definition new (x i T : Z) : result DSS.t :=
  NewDSS x participants (long i) (random i) message T.

(** the record [new x i T] builds when the key [x] is the one of
    participant [i] *)
Definition fresh (x i T : Z) : DSS.t :=
  DSS.mk _ _ x (Mul x None) i participants T (long i) (random i)
    (NewPubPoly Point_Base long_commits) (NewPubPoly Point_Base random_commits)
    message [] ∅ false (sessionID (long i) (random i)).

(** the session and the value left by a method call *)
Definition after {A} (m : DSS.method A) (d : DSS.t) : DSS.t := snd (m d).
Definition value {A} (m : DSS.method A) (d : DSS.t) : go A := fst (m d).

(** the identifier of the sessions above *)
Definition session_id : list byte := [x11; x05; x65; x21].

(** the partial signatures participants 0 and 1 issue when [schnorr.Sign]
    draws the bytes [05] and [09] *)
Definition ps0 : PartialSig.t :=
  PartialSig.mk _ (PriShare.mk _ 0 31) session_id [x05; xb2].
Definition ps1 : PartialSig.t :=
  PartialSig.mk _ (PriShare.mk _ 1 52) session_id [x09; xde].

(** participant 1 signing [53], which is not its response *)
Definition ps1_wrong : PartialSig.t :=
  PartialSig.mk _ (PriShare.mk _ 1 53) session_id [x09; x5d].

(** partial signatures that claim the indices [-1] and [3] *)
Definition ps_negative : PartialSig.t :=
  PartialSig.mk _ (PriShare.mk _ (-1) 0) session_id [].
Definition ps_beyond : PartialSig.t :=
  PartialSig.mk _ (PriShare.mk _ 3 0) session_id [].

(** the session of participant 0 once it holds its share and the share of
    participant 1 *)
Definition complete : DSS.t :=
  recorded (PartialSig.Partial ps1)
    (DSS.set_signed true (recorded (PartialSig.Partial ps0) (fresh 3 0 2))).

(** key shares whose commitment lists cut the points [01; 02; 03] at
    different places *)
Definition long_12 : DistKeyShare.t := DistKeyShare.mk _ (PriShare.mk _ 0 0) [x01; x02].
Definition random_3 : DistKeyShare.t := DistKeyShare.mk _ (PriShare.mk _ 0 0) [x03].
Definition long_1 : DistKeyShare.t := DistKeyShare.mk _ (PriShare.mk _ 0 0) [x01].
Definition random_23 : DistKeyShare.t := DistKeyShare.mk _ (PriShare.mk _ 0 0) [x02; x03].

(** calls of the user of the session of participant 0: the share of
    participant 1 arrives first, the session issues, its own partial
    signature and the share of participant 1 come back, the user asks for
    the signature and issues once more *)
Definition calls : list call :=
  [CallProcessPartialSig ps1; CallPartialSig [x05]; CallProcessPartialSig ps0;
   CallProcessPartialSig ps1; CallEnoughPartialSig; CallSignature;
   CallPartialSig [x07]].

(** the session of participant 0 over the key shares [long_12] and
    [random_3] *)
Definition other : DSS.t :=
  DSS.mk _ _ 3 (Mul 3 None) 0 participants 2 long_12 random_3
    (NewPubPoly Point_Base [x01; x02]) (NewPubPoly Point_Base [x03])
    message [] ∅ false (sessionID long_12 random_3).

(** the session of participant 0 when its long-term key share carries no
    commitment *)
Definition long_none : DistKeyShare.t := DistKeyShare.mk _ (PriShare.mk _ 0 22) [].
Definition uncommitted : DSS.t :=
  DSS.mk _ _ 3 (Mul 3 None) 0 participants 2 long_none (random 0)
    (NewPubPoly Point_Base []) (NewPubPoly Point_Base random_commits)
    message [] ∅ false (sessionID long_none (random 0)).

End Toy.

(** * Properties *)

(** ** Byte strings and slices *)

Lemma bytes_Equal_eq (a b : list byte) : bytes_Equal a b = true <-> a = b.
Proof.
  revert b. induction a as [|x a IH]; intros [|y b]; simpl; try (split; congruence).
  rewrite andb_true_iff, IH. split.
  - intros [Hxy ->]. apply Byte.byte_dec_bl in Hxy. congruence.
  - intros [= -> ->]. split; [apply Byte.byte_dec_lb|]; reflexivity.
Qed.

Lemma slice_index_negative {A} (s : list A) (i : Z) :
  i < 0 -> slice_index s i = Panic (index_out_of_range i (length s)).
Proof.
  intros Hi. unfold slice_index. rewrite bool_decide_eq_false_2 by lia. reflexivity.
Qed.

Lemma slice_index_in_range {A} (s : list A) (i : Z) :
  0 <= i < Z.of_nat (length s) ->
  exists x, s !! Z.to_nat i = Some x /\ slice_index s i = Done x.
Proof.
  intros Hi. unfold slice_index. rewrite bool_decide_eq_true_2 by lia.
  destruct (lookup_lt_is_Some_2 s (Z.to_nat i)) as [x Hx]; [lia|].
  exists x. rewrite Hx. auto.
Qed.

Lemma slice_index_zero {A} (s : list A) :
  slice_index s 0 = match s with
                    | x :: _ => Done x
                    | [] => Panic (index_out_of_range 0 0)
                    end.
Proof. destruct s; reflexivity. Qed.

Section FindPub.
Context `{S : Suite}.

Lemma findPub_above (list : list Point) (i : Z) :
  i >= Z.of_nat (length list) -> findPub list i = Done None.
Proof.
  intros Hi. unfold findPub. rewrite bool_decide_eq_true_2 by lia. reflexivity.
Qed.

Lemma findPub_below (list : list Point) (i : Z) :
  i < 0 -> findPub list i = Panic (index_out_of_range i (length list)).
Proof.
  intros Hi. unfold findPub. rewrite bool_decide_eq_false_2 by lia.
  rewrite slice_index_negative by lia. reflexivity.
Qed.

Lemma findPub_inside (list : list Point) (i : Z) :
  0 <= i < Z.of_nat (length list) ->
  exists p, list !! Z.to_nat i = Some p /\ findPub list i = Done (Some p).
Proof.
  intros Hi. unfold findPub. rewrite bool_decide_eq_false_2 by lia.
  destruct (slice_index_in_range list i Hi) as (p & Hp & ->). eauto.
Qed.

(** C3 (the code departs from the claim).  [findPub] answers "not found"
    exactly for the indices at or above the length of the registry and
    returns the registered point for the indices inside it; for every
    negative index it neither answers nor returns: the slice access
    [list[i]] is out of bounds and the call panics.  The lookup is
    therefore not total over the integers. *)
Theorem findPub_cases (list : list Point) (i : Z) :
  (i >= Z.of_nat (length list) -> findPub list i = Done None) /\
  (0 <= i < Z.of_nat (length list) ->
     exists p, list !! Z.to_nat i = Some p /\ findPub list i = Done (Some p)) /\
  (i < 0 -> findPub list i = Panic (index_out_of_range i (length list))).
Proof.
  split; [apply findPub_above|]. split; [apply findPub_inside|apply findPub_below].
Qed.

(** The scan of [NewDSS] stops at the first participant equal to [public]. *)
Lemma scan_found (public : Point) (l : list Point) (j i : Z) :
  scan public l j = (true, i) ->
  j <= i /\
  exists p, l !! Z.to_nat (i - j) = Some p /\ Point_Equal p public = true /\
    forall (k : nat) (q : Point),
      (k < Z.to_nat (i - j))%nat -> l !! k = Some q -> Point_Equal q public = false.
Proof.
  revert j. induction l as [|p l IH]; intros j; simpl; [congruence|].
  destruct (Point_Equal p public) eqn:Hp.
  - intros [= <-]. split; [lia|]. exists p. replace (j - j) with 0 by lia.
    repeat split; auto. intros k q Hk. simpl in Hk. lia.
  - intros Hs. destruct (IH _ Hs) as (Hj & p' & Hl & He & Hfirst).
    split; [lia|]. exists p'.
    replace (Z.to_nat (i - j)) with (Datatypes.S (Z.to_nat (i - (j + 1)))) by lia.
    repeat split; auto.
    intros [|k] r Hk Hr; simpl in Hr.
    + congruence.
    + apply (Hfirst k); [lia|done].
Qed.

Lemma scan_not_found (public : Point) (l : list Point) (j : Z) :
  fst (scan public l j) = false <->
  forall p, p ∈ l -> Point_Equal p public = false.
Proof.
  revert j. induction l as [|p l IH]; intros j; simpl.
  - split; [|done]. intros _ p Hp. by apply elem_of_nil in Hp.
  - destruct (Point_Equal p public) eqn:Hp; simpl.
    + split; [done|]. intros H. rewrite (H p) in Hp; [done|]. apply list_elem_of_here.
    + rewrite IH. split.
      * intros H r Hr. apply elem_of_cons in Hr as [->|Hr]; auto.
      * intros H r Hr. apply H. by apply list_elem_of_further.
Qed.

Lemma scan_false_zero (public : Point) (l : list Point) (j : Z) :
  fst (scan public l j) = false -> scan public l j = (false, 0).
Proof.
  revert j. induction l as [|p l IH]; intros j; simpl; [done|].
  destruct (Point_Equal p public); [done|]. apply IH.
Qed.
End FindPub.

(** ** The session *)

Section Session.
Context {S : Suite} {P : Packages S}.

Implicit Types (d : DSS.t) (ps : PartialSig.t).

(** unfolding of the monad of methods *)
Ltac run :=
  unfold DSS.bind, DSS.get, DSS.put, DSS.read, DSS.ret; simpl.

(** [hashSig] reads the session and leaves it as it is. *)
Lemma hashSig_eq d :
  DSS.hashSig d =
  (match DistKeyShare.Commitments (DSS.random d),
         DistKeyShare.Commitments (DSS.long d) with
   | R :: _, A :: _ =>
       Done (Scalar_SetBytes
               (sha512_Sum (Point_MarshalTo R ++ Point_MarshalTo A ++ DSS.msg d)))
   | [], _ => Panic (index_out_of_range 0 0)
   | _ :: _, [] => Panic (index_out_of_range 0 0)
   end, d).
Proof.
  unfold DSS.hashSig. run. rewrite !slice_index_zero.
  destruct (DistKeyShare.Commitments (DSS.random d)); [done|].
  destruct (DistKeyShare.Commitments (DSS.long d)); done.
Qed.

Lemma hashSig_state d : snd (DSS.hashSig d) = d.
Proof. rewrite hashSig_eq. reflexivity. Qed.

(** For an index inside the registry: the tag, the session identifier,
    the accepted set and the algebraic identity are checked in this order,
    the first failure returns its error with the session as it was, and the
    share is recorded when all pass. *)
Lemma ProcessPartialSig_checks d ps public :
  findPub (DSS.participants d) (PriShare.I (PartialSig.Partial ps)) = Done (Some public) ->
  DSS.ProcessPartialSig ps d =
  match schnorr_Verify public (PartialSig.Hash ps) (PartialSig.Signature ps) with
  | Some err => (Done (Some err), d)
  | None =>
    if bytes_Equal (PartialSig.SessionID ps) (DSS.sessionID d) then
      match DSS.partialsIdx d !! PriShare.I (PartialSig.Partial ps) with
      | Some _ =>
          (Done (Some (errors_New "dss: partial signature already received from peer")), d)
      | None =>
        match fst (DSS.hashSig d) with
        | Panic e => (Panic e, d)
        | Done hash =>
          let idx := PriShare.I (PartialSig.Partial ps) in
          if Point_Equal (Mul (PriShare.V (PartialSig.Partial ps)) None)
               (Point_Add (PubShare.V (PubPoly_Eval (DSS.randomPoly d) idx))
                  (Mul hash (Some (PubShare.V (PubPoly_Eval (DSS.longPoly d) idx)))))
          then (Done None, recorded (PartialSig.Partial ps) d)
          else (Done (Some (errors_New "dss: partial signature not valid")), d)
        end
      end
    else (Done (Some (errors_New "dss: session id do not match")), d)
  end.
Proof.
  intros Hpub. unfold DSS.ProcessPartialSig. run. rewrite Hpub.
  destruct (schnorr_Verify _ _ _); [done|].
  destruct (bytes_Equal _ _); simpl; [|done].
  destruct (DSS.partialsIdx d !! _); [done|].
  run. rewrite hashSig_eq. simpl.
  destruct (DistKeyShare.Commitments (DSS.random d)); [done|].
  destruct (DistKeyShare.Commitments (DSS.long d)); [done|].
  destruct (Point_Equal _ _); done.
Qed.

Lemma ProcessPartialSig_above d ps :
  PriShare.I (PartialSig.Partial ps) >= Z.of_nat (length (DSS.participants d)) ->
  DSS.ProcessPartialSig ps d =
  (Done (Some (errors_New "dss: partial signature with invalid index")), d).
Proof.
  intros Hi. unfold DSS.ProcessPartialSig. run. rewrite findPub_above by done. done.
Qed.

(** Below the registry the lookup panics before any check returns. *)
Lemma ProcessPartialSig_below d ps :
  PriShare.I (PartialSig.Partial ps) < 0 ->
  DSS.ProcessPartialSig ps d =
  (Panic (index_out_of_range (PriShare.I (PartialSig.Partial ps))
            (length (DSS.participants d))), d).
Proof.
  intros Hi. unfold DSS.ProcessPartialSig. run. rewrite findPub_below by done. done.
Qed.

(** Whatever [ProcessPartialSig] answers, the session changes only when
    the answer is the nil error. *)
Lemma ProcessPartialSig_atomic d ps r d' :
  DSS.ProcessPartialSig ps d = (r, d') -> r <> Done None -> d' = d.
Proof.
  set (i := PriShare.I (PartialSig.Partial ps)).
  destruct (Z_lt_le_dec i 0) as [Hneg|Hpos].
  { rewrite ProcessPartialSig_below by done. congruence. }
  destruct (Z_lt_le_dec i (Z.of_nat (length (DSS.participants d)))) as [Hin|Hout].
  2:{ rewrite ProcessPartialSig_above by (fold i; lia). congruence. }
  destruct (findPub_inside (DSS.participants d) i) as (p & _ & Hp); [lia|].
  rewrite (ProcessPartialSig_checks d ps p Hp).
  destruct (schnorr_Verify _ _ _); [congruence|].
  destruct (bytes_Equal _ _); [|congruence].
  destruct (DSS.partialsIdx d !! _); [congruence|].
  destruct (fst (DSS.hashSig d)); simpl; [|congruence].
  destruct (Point_Equal _ _); congruence.
Qed.

(** C2 (the code departs from the claim).  The five checks are made in
    the order index, authentication tag, session identifier, accepted set,
    algebraic identity; the first that fails returns its error, the session
    changes only when the call returns the nil error, and then the share is
    recorded in the accepted set and appended to the accepted list.  This
    holds for every index that is not negative.  For a negative index the
    first check does not return the invalid-index error: the registry
    lookup panics and the call returns no error at all. *)
Theorem ProcessPartialSig_five_checks d ps :
  let i := PriShare.I (PartialSig.Partial ps) in
  let run := DSS.ProcessPartialSig ps d in
  (i >= Z.of_nat (length (DSS.participants d)) ->
   run = (Done (Some (errors_New "dss: partial signature with invalid index")), d)) /\
  (i < 0 ->
   run = (Panic (index_out_of_range i (length (DSS.participants d))), d) /\
   forall err, fst run <> Done (Some err)) /\
  (0 <= i < Z.of_nat (length (DSS.participants d)) ->
   exists public,
     DSS.participants d !! Z.to_nat i = Some public /\
     let tag := schnorr_Verify public (PartialSig.Hash ps) (PartialSig.Signature ps) in
     (forall err, tag = Some err -> run = (Done (Some err), d)) /\
     (tag = None -> PartialSig.SessionID ps <> DSS.sessionID d ->
      run = (Done (Some (errors_New "dss: session id do not match")), d)) /\
     (tag = None -> PartialSig.SessionID ps = DSS.sessionID d ->
      is_Some (DSS.partialsIdx d !! i) ->
      run = (Done (Some (errors_New
                           "dss: partial signature already received from peer")), d)) /\
     (forall hash,
        tag = None -> PartialSig.SessionID ps = DSS.sessionID d ->
        DSS.partialsIdx d !! i = None -> fst (DSS.hashSig d) = Done hash ->
        let valid :=
          Point_Equal (Mul (PriShare.V (PartialSig.Partial ps)) None)
            (Point_Add (randShare d i) (Mul hash (Some (longShare d i)))) in
        (valid = false ->
         run = (Done (Some (errors_New "dss: partial signature not valid")), d)) /\
        (valid = true ->
         run = (Done None, recorded (PartialSig.Partial ps) d)))) /\
  (forall r d', run = (r, d') -> r <> Done None -> d' = d).
Proof.
  intros i run. split; [apply ProcessPartialSig_above|].
  split.
  { intros Hi. unfold run. rewrite ProcessPartialSig_below by done.
    split; [done|]. intros err. done. }
  split; [|apply ProcessPartialSig_atomic].
  intros Hi. destruct (findPub_inside (DSS.participants d) i Hi) as (public & Hl & Hp).
  exists public. split; [done|]. unfold run.
  rewrite (ProcessPartialSig_checks d ps public Hp). fold i.
  destruct (schnorr_Verify _ _ _) as [err|]; simpl.
  { split; [by intros ? [= <-]|]. repeat split; intros; done. }
  split; [done|].
  destruct (bytes_Equal _ _) eqn:Hsid.
  2:{ split; [done|]. split.
      - intros _ Heq. apply bytes_Equal_eq in Heq. congruence.
      - intros hash _ Heq. apply bytes_Equal_eq in Heq. congruence. }
  apply bytes_Equal_eq in Hsid. split; [done|].
  destruct (DSS.partialsIdx d !! i) as [b|].
  { split; [done|]. intros; done. }
  split; [by intros _ _ [? ?]|].
  intros hash _ _ _ ->. fold (randShare d i) (longShare d i).
  destruct (Point_Equal _ _); split; done.
Qed.

(** C4.  A partial signature that reaches the algebraic step (its index
    is in the registry, its tag verifies, its session identifier is the one
    of the session, its index is not yet accepted) is accepted exactly when
    [response * base = challenge * longShare + randShare], the two
    commitments being the public polynomials evaluated at its index and the
    challenge the value of [hashSig]; otherwise the call returns the
    invalid-partial-value error and changes nothing. *)
Theorem ProcessPartialSig_algebraic (L : SuiteLaws S) d ps public hash :
  let i := PriShare.I (PartialSig.Partial ps) in
  findPub (DSS.participants d) i = Done (Some public) ->
  schnorr_Verify public (PartialSig.Hash ps) (PartialSig.Signature ps) = None ->
  PartialSig.SessionID ps = DSS.sessionID d ->
  DSS.partialsIdx d !! i = None ->
  fst (DSS.hashSig d) = Done hash ->
  (Mul (PriShare.V (PartialSig.Partial ps)) None
     = Point_Add (Mul hash (Some (longShare d i))) (randShare d i) ->
   DSS.ProcessPartialSig ps d = (Done None, recorded (PartialSig.Partial ps) d)) /\
  (Mul (PriShare.V (PartialSig.Partial ps)) None
     <> Point_Add (Mul hash (Some (longShare d i))) (randShare d i) ->
   DSS.ProcessPartialSig ps d
     = (Done (Some (errors_New "dss: partial signature not valid")), d)).
Proof.
  intros i Hpub Hver Hsid Hidx Hhash.
  rewrite (ProcessPartialSig_checks d ps public Hpub), Hver.
  apply bytes_Equal_eq in Hsid. rewrite Hsid. fold i. rewrite Hidx, Hhash. simpl.
  rewrite (Point_Add_comm (Mul hash _)). fold (longShare d i) (randShare d i).
  destruct (Point_Equal _ _) eqn:Heq.
  - apply Point_Equal_eq in Heq. split; [done|]. intros Hne. by destruct Hne.
  - split; [|done]. intros He. apply Point_Equal_eq in He. congruence.
Qed.

(** Local issuance, unfolded. *)
Lemma PartialSig_eq (r : Entropy) d :
  DSS.PartialSig r d =
  match fst (DSS.hashSig d) with
  | Panic e => (Panic e, d)
  | Done hash =>
    let signature :=
      schnorr_Sign r (DSS.secret d)
        (PartialSig.Hash (PartialSig.mk _ (response d hash) (DSS.sessionID d) [])) in
    (Done (PartialSig.mk _ (response d hash) (DSS.sessionID d)
             (match signature with Ok sig => sig | Err _ => [] end),
           match signature with Ok _ => None | Err err => Some err end),
     if DSS.signed d then d
     else DSS.set_signed true
            (DSS.set_partials (DSS.partials d ++ [response d hash])
               (DSS.set_partialsIdx (<[DSS.index d := true]> (DSS.partialsIdx d)) d)))
  end.
Proof.
  unfold DSS.PartialSig. run. rewrite hashSig_eq. simpl.
  destruct (DistKeyShare.Commitments (DSS.random d)); [done|].
  destruct (DistKeyShare.Commitments (DSS.long d)); [done|].
  fold (response d (Scalar_SetBytes
    (sha512_Sum (Point_MarshalTo p ++ Point_MarshalTo p0 ++ DSS.msg d)))).
  destruct (DSS.signed d); simpl; destruct (schnorr_Sign _ _ _); done.
Qed.

(** Issuing again does not change a session that has issued. *)
Lemma PartialSig_signed (r : Entropy) d :
  DSS.signed d = true -> snd (DSS.PartialSig r d) = d.
Proof.
  intros Hs. rewrite PartialSig_eq. destruct (fst (DSS.hashSig d)); [|done].
  simpl. by rewrite Hs.
Qed.

(** C1 (the code departs from the claim).  Local issuance records the
    owner's share under the flag [signed] alone, without consulting the
    accepted set.  When the session has accepted a partial signature under
    its own index before it issues, issuance records a second share under
    that index: the session then holds two accepted shares for it. *)
Theorem PartialSig_after_own_share (r : Entropy) d ps d1 out d2 :
  DSS.signed d = false ->
  PriShare.I (PartialSig.Partial ps) = DSS.index d ->
  DSS.ProcessPartialSig ps d = (Done None, d1) ->
  DSS.PartialSig r d1 = (Done out, d2) ->
  DSS.partials d2
    = DSS.partials d ++ [PartialSig.Partial ps; PartialSig.Partial (fst out)] /\
  PriShare.I (PartialSig.Partial (fst out)) = DSS.index d /\
  (2 <= length (held (DSS.index d) d2))%nat.
Proof.
  intros Hsigned Hown Hacc Hiss.
  assert (Hd1 : d1 = recorded (PartialSig.Partial ps) d).
  { destruct (Z_lt_le_dec (PriShare.I (PartialSig.Partial ps)) 0) as [Hneg|Hpos].
    { rewrite ProcessPartialSig_below in Hacc by done. congruence. }
    destruct (Z_lt_le_dec (PriShare.I (PartialSig.Partial ps))
                (Z.of_nat (length (DSS.participants d)))) as [Hin|Hout].
    2:{ rewrite ProcessPartialSig_above in Hacc by lia. congruence. }
    destruct (findPub_inside (DSS.participants d) (PriShare.I (PartialSig.Partial ps)))
      as (p & _ & Hp); [lia|].
    rewrite (ProcessPartialSig_checks d ps p Hp) in Hacc.
    destruct (schnorr_Verify _ _ _); [congruence|].
    destruct (bytes_Equal _ _); [|congruence].
    destruct (DSS.partialsIdx d !! _); [congruence|].
    destruct (fst (DSS.hashSig d)); simpl in Hacc; [|congruence].
    destruct (Point_Equal _ _); congruence. }
  subst d1. rewrite PartialSig_eq in Hiss.
  destruct (fst (DSS.hashSig _)) as [hash|]; [|congruence].
  simpl in Hiss. rewrite Hsigned in Hiss. injection Hiss as <- <-. simpl.
  assert (Hparts : forall l : list PriShare.t, (l ++ [PartialSig.Partial ps])
            ++ [response (recorded (PartialSig.Partial ps) d) hash]
          = l ++ [PartialSig.Partial ps; response (recorded (PartialSig.Partial ps) d) hash]).
  { intros l. by rewrite <- app_assoc. }
  split; [apply Hparts|]. split; [done|].
  unfold held. simpl. rewrite Hparts, filter_app, length_app.
  rewrite filter_cons_True by done. rewrite filter_cons_True by done.
  simpl. lia.
Qed.

(** C9 (the code departs from the claim).  Local issuance looks at the
    error of [schnorr.Sign] only when it returns: on the first issuance of
    a session the share is recorded and the flag set although the call
    returns that error, so an operation that returns an error has changed
    the accepted set, the accepted list and the issuance flag. *)
Theorem PartialSig_error_mutates (r : Entropy) d ps err d' :
  DSS.signed d = false ->
  DSS.PartialSig r d = (Done (ps, Some err), d') ->
  DSS.signed d' = true /\
  DSS.partials d' = DSS.partials d ++ [PartialSig.Partial ps] /\
  DSS.partialsIdx d' = <[DSS.index d := true]> (DSS.partialsIdx d) /\
  d' <> d.
Proof.
  intros Hsigned Hiss. rewrite PartialSig_eq in Hiss.
  destruct (fst (DSS.hashSig d)) as [hash|]; [|congruence].
  simpl in Hiss. rewrite Hsigned in Hiss. injection Hiss as <- _ <-. simpl.
  repeat split. intros Heq. apply (f_equal DSS.signed) in Heq. simpl in Heq. congruence.
Qed.

(** The other operations leave the session as it is when they return an
    error: verify-and-accumulate, the threshold predicate and recovery. *)
Lemma ProcessPartialSig_error_state d ps err d' :
  DSS.ProcessPartialSig ps d = (Done (Some err), d') -> d' = d.
Proof. intros H. apply (ProcessPartialSig_atomic _ _ _ _ H). congruence. Qed.

Lemma EnoughPartialSig_eq d :
  DSS.EnoughPartialSig d
  = (Done (bool_decide (Z.of_nat (length (DSS.partials d)) >= DSS.T d)), d).
Proof. reflexivity. Qed.

Lemma Signature_eq d :
  DSS.Signature d =
  (if bool_decide (Z.of_nat (length (DSS.partials d)) >= DSS.T d) then
     match RecoverSecret (DSS.partials d) (DSS.T d)
             (Z.of_nat (length (DSS.participants d))) with
     | Err err => Done (Err err)
     | Ok gamma =>
       match DistKeyShare.Commitments (DSS.random d) with
       | R :: _ => Done (Ok (Point_MarshalTo R ++ Scalar_MarshalTo gamma))
       | [] => Panic (index_out_of_range 0 0)
       end
     end
   else Done (Err (errors_New "dkg: not enough partial signatures to sign")), d).
Proof.
  unfold DSS.Signature. run. destruct (bool_decide _); simpl; [|done].
  destruct (RecoverSecret _ _ _); [|done]. run. rewrite slice_index_zero.
  destruct (DistKeyShare.Commitments (DSS.random d)); done.
Qed.

Lemma Signature_state d : snd (DSS.Signature d) = d.
Proof. by rewrite Signature_eq. Qed.

(** C5.  The threshold predicate answers true exactly when the number of
    accepted shares is at least [T] and leaves the session as it is; with
    fewer than [T] accepted shares recovery returns the insufficient-shares
    error, no signature, and leaves the session as it is. *)
Theorem EnoughPartialSig_threshold d :
  (exists b, DSS.EnoughPartialSig d = (Done b, d) /\
     (b = true <-> Z.of_nat (length (DSS.partials d)) >= DSS.T d)) /\
  (Z.of_nat (length (DSS.partials d)) < DSS.T d ->
   DSS.Signature d
     = (Done (Err (errors_New "dkg: not enough partial signatures to sign")), d)).
Proof.
  split.
  - eexists. split; [apply EnoughPartialSig_eq|]. apply bool_decide_eq_true.
  - intros Hlt. rewrite Signature_eq. by rewrite bool_decide_eq_false_2 by lia.
Qed.

(** C6.  When recovery succeeds the threshold predicate holds, the
    secret-sharing reconstruction over the accepted shares (with [T] and
    the number of participants) has returned a scalar [gamma], and the
    output is the serialization of the first one-time commitment followed
    by the serialization of [gamma]; conversely these conditions make
    recovery succeed with that output. *)
Theorem Signature_layout d out :
  fst (DSS.Signature d) = Done (Ok out) <->
  Z.of_nat (length (DSS.partials d)) >= DSS.T d /\
  exists R rest gamma,
    DistKeyShare.Commitments (DSS.random d) = R :: rest /\
    RecoverSecret (DSS.partials d) (DSS.T d)
      (Z.of_nat (length (DSS.participants d))) = Ok gamma /\
    out = Point_MarshalTo R ++ Scalar_MarshalTo gamma.
Proof.
  rewrite Signature_eq. simpl. split.
  - destruct (bool_decide _) eqn:Hen; [|congruence].
    apply bool_decide_eq_true in Hen.
    destruct (RecoverSecret _ _ _) as [gamma|]; [|congruence].
    destruct (DistKeyShare.Commitments (DSS.random d)) as [|R rest]; [congruence|].
    intros [= <-]. split; [done|]. by exists R, rest, gamma.
  - intros (Hen & R & rest & gamma & -> & -> & ->).
    by rewrite bool_decide_eq_true_2.
Qed.
End Session.

(** ** Construction and the session identifier *)

Section Construction.
Context {S : Suite} {P : Packages S}.

Lemma NewDSS_eq secret participants long random msg T :
  NewDSS secret participants long random msg T =
  let found_i := scan (Mul secret None) participants 0 in
  if fst found_i then
    Ok (DSS.mk _ _ secret (Mul secret None) (snd found_i) participants T long random
          (NewPubPoly Point_Base (DistKeyShare.Commitments long))
          (NewPubPoly Point_Base (DistKeyShare.Commitments random))
          msg [] ∅ false (sessionID long random))
  else Err (errors_New "dss: public key not found in list of participants").
Proof. unfold NewDSS. simpl. by destruct (fst _). Qed.

(** C7.  Construction fails, with the participant-not-found error,
    exactly when no point of the participant list equals [secret * base];
    when one does, construction succeeds and the index of the session is
    the position of the first such point. *)
Theorem NewDSS_participant secret participants long random msg T :
  let public := Mul secret None in
  (NewDSS secret participants long random msg T
     = Err (errors_New "dss: public key not found in list of participants")
   <-> forall p, p ∈ participants -> Point_Equal p public = false) /\
  ((forall p, p ∈ participants -> Point_Equal p public = false) \/
   exists d (i : nat) p,
     NewDSS secret participants long random msg T = Ok d /\
     DSS.index d = Z.of_nat i /\
     participants !! i = Some p /\ Point_Equal p public = true /\
     forall (k : nat) q,
       (k < i)%nat -> participants !! k = Some q -> Point_Equal q public = false).
Proof.
  intros public. rewrite NewDSS_eq. simpl. fold public.
  pose proof (scan_not_found public participants 0) as Hnot.
  destruct (scan public participants 0) as [found i] eqn:Hscan. simpl in *.
  destruct found.
  - split.
    + split; [congruence|]. intros H. apply Hnot in H. congruence.
    + right. destruct (scan_found _ _ _ _ Hscan) as (Hi & p & Hp & He & Hfirst).
      rewrite Z.sub_0_r in Hp, Hfirst.
      eexists _, (Z.to_nat i), p. split; [reflexivity|]. simpl.
      split; [lia|]. auto.
  - split; [|left; by apply Hnot]. split; [intros _; by apply Hnot|done].
Qed.

(** C10.  Construction does not look at the threshold: for every integer
    [T] it succeeds as soon as the derived public point is in the list, the
    session stores that [T], and the threshold predicate and recovery use
    it as it is.  With [T <= 0] the fresh session, which holds no share,
    already satisfies the predicate and recovery calls the reconstruction
    on the empty list; with [T] above the number of participants nothing
    is rejected either. *)
Theorem NewDSS_threshold_unchecked secret participants long random msg T :
  (exists p, p ∈ participants /\ Point_Equal p (Mul secret None) = true) ->
  exists d,
    NewDSS secret participants long random msg T = Ok d /\
    DSS.T d = T /\ DSS.partials d = [] /\
    DSS.EnoughPartialSig d = (Done (bool_decide (0 >= T)), d) /\
    DSS.Signature d =
    (if bool_decide (0 >= T) then
       match RecoverSecret [] T (Z.of_nat (length participants)) with
       | Err err => Done (Err err)
       | Ok gamma =>
         match DistKeyShare.Commitments random with
         | R :: _ => Done (Ok (Point_MarshalTo R ++ Scalar_MarshalTo gamma))
         | [] => Panic (index_out_of_range 0 0)
         end
       end
     else Done (Err (errors_New "dkg: not enough partial signatures to sign")), d).
Proof.
  intros (p & Hin & Hp). rewrite NewDSS_eq. simpl.
  destruct (fst (scan (Mul secret None) participants 0)) eqn:Hscan.
  2:{ rewrite (proj1 (scan_not_found _ _ _) Hscan p Hin) in Hp. done. }
  eexists. split; [reflexivity|]. rewrite Signature_eq. simpl. done.
Qed.

(** The bytes hashed by [sessionID] are those of the two lists one after
    the other. *)
Lemma marshal_all_app (l1 l2 : list Point) :
  marshal_all (l1 ++ l2) = marshal_all l1 ++ marshal_all l2.
Proof. induction l1 as [|p l1 IH]; simpl; [done|]. by rewrite IH, app_assoc. Qed.

Lemma sessionID_concat (a b : DistKeyShare.t) :
  sessionID a b
  = Hash_Sum (marshal_all (DistKeyShare.Commitments a ++ DistKeyShare.Commitments b)).
Proof. unfold sessionID. by rewrite marshal_all_app. Qed.

(** Where the first list ends is not hashed: moving commitments across the
    boundary does not change the identifier, whatever the hash. *)
Lemma sessionID_boundary (s1 s2 s3 s4 : PriShare.t) (l1 l2 l3 : list Point) :
  sessionID (DistKeyShare.mk _ s1 (l1 ++ l2)) (DistKeyShare.mk _ s2 l3)
  = sessionID (DistKeyShare.mk _ s3 l1) (DistKeyShare.mk _ s4 (l2 ++ l3)).
Proof. rewrite !sessionID_concat. simpl. by rewrite app_assoc. Qed.

(** With points serialized injectively at a fixed non-zero width the bytes
    hashed determine the concatenated list. *)
Lemma marshal_all_inj (n : nat) (l l' : list Point) :
  n <> 0%nat ->
  (forall p, length (Point_MarshalTo p) = n) ->
  (forall p q, Point_MarshalTo p = Point_MarshalTo q -> p = q) ->
  marshal_all l = marshal_all l' -> l = l'.
Proof.
  intros Hn Hlen Hinj. revert l'.
  induction l as [|p l IH]; intros [|q l'] Heq; simpl in Heq; [done| | |].
  - apply (f_equal length) in Heq. rewrite length_app, Hlen in Heq. simpl in Heq. lia.
  - apply (f_equal length) in Heq. rewrite length_app, Hlen in Heq. simpl in Heq. lia.
  - apply app_inj_1 in Heq as [Hp Hl]; [|by rewrite !Hlen].
    f_equal; [by apply Hinj|by apply IH].
Qed.

(** C8, as amended.  The identifier of a session is a function of the
    long-term commitment list followed by the one-time commitment list:
    sessions for which this concatenation is the same (in particular
    sessions with the same pair of lists) have byte-equal identifiers; and
    when points are serialized injectively at a fixed non-zero width and the
    hash does not collide on the two serializations, sessions for which the
    concatenation differs have different identifiers. *)
Theorem sessionID_concatenation
    secret participants (a b : DistKeyShare.t) msg T d
    secret' participants' (a' b' : DistKeyShare.t) msg' T' d' :
  NewDSS secret participants a b msg T = Ok d ->
  NewDSS secret' participants' a' b' msg' T' = Ok d' ->
  let c := DistKeyShare.Commitments a ++ DistKeyShare.Commitments b in
  let c' := DistKeyShare.Commitments a' ++ DistKeyShare.Commitments b' in
  (c = c' -> DSS.sessionID d = DSS.sessionID d') /\
  (forall n : nat,
     n <> 0%nat ->
     (forall p, length (Point_MarshalTo p) = n) ->
     (forall p q, Point_MarshalTo p = Point_MarshalTo q -> p = q) ->
     (Hash_Sum (marshal_all c) = Hash_Sum (marshal_all c') ->
      marshal_all c = marshal_all c') ->
     c <> c' -> DSS.sessionID d <> DSS.sessionID d').
Proof.
  intros Hd Hd' c c'. rewrite NewDSS_eq in Hd, Hd'. simpl in Hd, Hd'.
  destruct (fst (scan _ participants 0)); [|done].
  destruct (fst (scan _ participants' 0)); [|done].
  injection Hd as <-. injection Hd' as <-. simpl. rewrite !sessionID_concat.
  fold c c'. split; [by intros ->|].
  intros n Hn Hlen Hinj Hhash Hne Hid. apply Hne.
  apply (marshal_all_inj n); auto.
Qed.
End Construction.

(** ** The sessions of the small instance *)

#[local] Existing Instances Toy.suite Toy.packages.

Lemma Toy_laws : SuiteLaws Toy.suite.
Proof.
  split.
  - intros p q. split; [apply Byte.byte_dec_bl|apply Byte.byte_dec_lb].
  - intros p q. simpl. by rewrite Z.add_comm.
Qed.

(** Construction returns the record [Toy.fresh]. *)
Lemma Toy_new_fresh : Toy.new 3 0 2 = Ok (Toy.fresh 3 0 2).
Proof. reflexivity. Qed.

(** Scenario A of the specification: participants 0 and 1 issue, the
    session of participant 0 accumulates both shares, the threshold is
    reached and the recovered signature verifies under the combined
    public key. *)
Lemma Toy_scenario_A :
  DSS.PartialSig [x05] (Toy.fresh 3 0 2)
    = (Done (Toy.ps0, None),
       DSS.set_signed true (recorded (PartialSig.Partial Toy.ps0) (Toy.fresh 3 0 2))) /\
  fst (DSS.PartialSig [x09] (Toy.fresh 7 1 2)) = Done (Toy.ps1, None) /\
  DSS.ProcessPartialSig Toy.ps1
    (DSS.set_signed true (recorded (PartialSig.Partial Toy.ps0) (Toy.fresh 3 0 2)))
    = (Done None, Toy.complete) /\
  fst (DSS.EnoughPartialSig Toy.complete) = Done true /\
  fst (DSS.Signature Toy.complete) = Done (Ok [x65; x0a]) /\
  Verify (Toy.point_of_Z 17) Toy.message [x65; x0a] = None.
Proof. repeat split. Qed.

(** The session of participant 0 receives, before it has issued, its own
    partial signature (issued by a second session object of participant 0
    over the same inputs), accepts it, and then issues: two shares are held
    under index 0. *)
Lemma PartialSig_after_own_share_witness :
  let d := Toy.fresh 3 0 2 in
  let d1 := recorded (PartialSig.Partial Toy.ps0) d in
  let d2 := DSS.set_signed true (recorded (PartialSig.Partial Toy.ps0) d1) in
  fst (DSS.PartialSig [x05] (Toy.fresh 3 0 2)) = Done (Toy.ps0, None) /\
  DSS.ProcessPartialSig Toy.ps0 d = (Done None, d1) /\
  DSS.PartialSig [x05] d1 = (Done (Toy.ps0, None), d2) /\
  DSS.partials d2 = [PriShare.mk _ 0 31; PriShare.mk _ 0 31] /\
  (2 <= length (held 0 d2))%nat.
Proof.
  intros d d1 d2.
  assert (Hacc : DSS.ProcessPartialSig Toy.ps0 d = (Done None, d1)) by reflexivity.
  assert (Hiss : DSS.PartialSig [x05] d1 = (Done (Toy.ps0, None), d2)) by reflexivity.
  split; [reflexivity|]. split; [exact Hacc|]. split; [exact Hiss|].
  destruct (PartialSig_after_own_share _ d Toy.ps0 d1 _ d2 eq_refl eq_refl Hacc Hiss)
    as (Hparts & _ & Hheld).
  split; [exact Hparts|exact Hheld].
Defined.

(** In the session of participant 0: index 3 is rejected, index [-1]
    panics, the share of participant 1 is recorded. *)
Lemma ProcessPartialSig_five_checks_witness :
  DSS.ProcessPartialSig Toy.ps_negative (Toy.fresh 3 0 2)
    = (Panic (index_out_of_range (-1) 3), Toy.fresh 3 0 2) /\
  (forall err, fst (DSS.ProcessPartialSig Toy.ps_negative (Toy.fresh 3 0 2))
               <> Done (Some err)) /\
  DSS.ProcessPartialSig Toy.ps_beyond (Toy.fresh 3 0 2)
    = (Done (Some (errors_New "dss: partial signature with invalid index")),
       Toy.fresh 3 0 2) /\
  exists public, Toy.participants !! 1%nat = Some public.
Proof.
  destruct (ProcessPartialSig_five_checks (Toy.fresh 3 0 2) Toy.ps_negative)
    as (_ & Hneg & _).
  destruct (ProcessPartialSig_five_checks (Toy.fresh 3 0 2) Toy.ps_beyond)
    as (Hbeyond & _).
  destruct (ProcessPartialSig_five_checks (Toy.fresh 3 0 2) Toy.ps1)
    as (_ & _ & Hin & _).
  split; [apply Hneg; simpl; lia|]. split; [apply Hneg; simpl; lia|].
  split; [apply Hbeyond; simpl; lia|].
  destruct Hin as (public & Hpub & _); [simpl; lia|]. exists public. exact Hpub.
Defined.

(** [findPub] on the three participants at [-1], [1] and [3]. *)
Lemma findPub_cases_witness :
  findPub Toy.participants 3 = Done None /\
  (exists p, Toy.participants !! Z.to_nat 1 = Some p /\
             findPub Toy.participants 1 = Done (Some p)) /\
  findPub Toy.participants (-1) = Panic (index_out_of_range (-1) 3).
Proof.
  split; [|split].
  - apply (findPub_cases (S:=Toy.suite) Toy.participants 3). simpl. lia.
  - apply (findPub_cases (S:=Toy.suite) Toy.participants 1). simpl. lia.
  - apply (findPub_cases (S:=Toy.suite) Toy.participants (-1)). lia.
Defined.

(** The share of participant 1 is accepted by the session of participant
    0; a wrong response that participant 1 has signed passes the first
    four checks, is rejected by the fifth, and nothing changes. *)
Lemma ProcessPartialSig_algebraic_witness :
  DSS.ProcessPartialSig Toy.ps1 (Toy.fresh 3 0 2)
    = (Done None, recorded (PartialSig.Partial Toy.ps1) (Toy.fresh 3 0 2)) /\
  DSS.ProcessPartialSig Toy.ps1_wrong (Toy.fresh 3 0 2)
    = (Done (Some (errors_New "dss: partial signature not valid")), Toy.fresh 3 0 2).
Proof.
  split.
  - apply (ProcessPartialSig_algebraic Toy_laws (Toy.fresh 3 0 2) Toy.ps1 x07 98);
      reflexivity.
  - apply (ProcessPartialSig_algebraic Toy_laws (Toy.fresh 3 0 2) Toy.ps1_wrong x07 98);
      try reflexivity.
    vm_compute. discriminate.
Defined.

(** The first issuance of participant 0 when [schnorr.Sign] fails: the
    call returns the error and the share is recorded all the same. *)
Lemma PartialSig_error_mutates_witness :
  let d := Toy.fresh 3 0 2 in
  let d' := DSS.set_signed true (recorded (PriShare.mk _ 0 31) d) in
  DSS.PartialSig [] d
    = (Done (PartialSig.mk _ (PriShare.mk _ 0 31) Toy.session_id [],
             Some (errors_New "schnorr: random stream exhausted")), d') /\
  DSS.signed d' = true /\
  DSS.partials d' = [PriShare.mk _ 0 31] /\
  d' <> d.
Proof.
  intros d d'.
  assert (Hiss : DSS.PartialSig [] d
            = (Done (PartialSig.mk _ (PriShare.mk _ 0 31) Toy.session_id [],
                     Some (errors_New "schnorr: random stream exhausted")), d'))
    by reflexivity.
  split; [exact Hiss|].
  destruct (PartialSig_error_mutates _ d _ _ d' eq_refl Hiss) as (Hs & Hp & _ & Hne).
  split; [exact Hs|]. split; [exact Hp|exact Hne].
Defined.

(** Scenario B of the specification: with the share of participant 0
    alone and threshold two, recovery fails. *)
Lemma EnoughPartialSig_threshold_witness :
  let d := DSS.set_signed true (recorded (PartialSig.Partial Toy.ps0) (Toy.fresh 3 0 2)) in
  DSS.Signature d
  = (Done (Err (errors_New "dkg: not enough partial signatures to sign")), d).
Proof.
  intros d. apply (EnoughPartialSig_threshold d). simpl. lia.
Defined.

(** The signature the complete session recovers: the first one-time
    commitment [65] followed by the recovered scalar [0a]. *)
Lemma Signature_layout_witness :
  fst (DSS.Signature Toy.complete) = Done (Ok [x65; x0a]) /\
  exists R rest gamma,
    DistKeyShare.Commitments (DSS.random Toy.complete) = R :: rest /\
    RecoverSecret (DSS.partials Toy.complete) (DSS.T Toy.complete)
      (Z.of_nat (length (DSS.participants Toy.complete))) = Ok gamma /\
    [x65; x0a] = Point_MarshalTo R ++ Scalar_MarshalTo gamma.
Proof.
  assert (H : fst (DSS.Signature Toy.complete) = Done (Ok [x65; x0a])) by reflexivity.
  split; [exact H|].
  exact (proj2 (proj1 (Signature_layout Toy.complete [x65; x0a]) H)).
Defined.

(** Scenario C of the specification: the key [4] is the key of no
    participant; the key [7] is the one of participant 1. *)
Lemma NewDSS_participant_witness :
  Toy.new 4 0 2 = Err (errors_New "dss: public key not found in list of participants") /\
  exists d, Toy.new 7 1 2 = Ok d /\ DSS.index d = 1.
Proof.
  split.
  - apply (NewDSS_participant (S:=Toy.suite) 4 Toy.participants).
    intros p Hp. apply list_elem_of_In in Hp. simpl in Hp.
    destruct Hp as [<-|[<-|[<-|[]]]]; reflexivity.
  - destruct (proj2 (NewDSS_participant (S:=Toy.suite) 7 Toy.participants
                       (Toy.long 1) (Toy.random 1) Toy.message 2))
      as [Hnone|(d & i & p & Hd & Hi & _)].
    + specialize (Hnone x07). discriminate Hnone. simpl. apply list_elem_of_In.
      simpl. auto.
    + exists d. split; [exact Hd|]. unfold Toy.new in *.
      injection Hd as <-. reflexivity.
Defined.

(** Thresholds [-5] and [100] are accepted for three participants; with
    [-5] the fresh session already satisfies the threshold predicate. *)
Lemma NewDSS_threshold_unchecked_witness :
  (exists d, Toy.new 3 0 (-5) = Ok d /\ DSS.T d = -5 /\
             DSS.EnoughPartialSig d = (Done true, d)) /\
  (exists d, Toy.new 3 0 100 = Ok d /\ DSS.T d = 100 /\
             DSS.EnoughPartialSig d = (Done false, d)).
Proof.
  assert (Hin : exists p : Point, p ∈ Toy.participants /\
                  Point_Equal p (Mul (3 : Scalar) None) = true).
  { exists x03. split; [|reflexivity]. apply list_elem_of_In. simpl. auto. }
  split.
  - destruct (NewDSS_threshold_unchecked (S:=Toy.suite) 3 Toy.participants
                (Toy.long 0) (Toy.random 0) Toy.message (-5) Hin)
      as (d & Hd & HT & _ & Hen & _).
    exists d. auto.
  - destruct (NewDSS_threshold_unchecked (S:=Toy.suite) 3 Toy.participants
                (Toy.long 0) (Toy.random 0) Toy.message 100 Hin)
      as (d & Hd & HT & _ & Hen & _).
    exists d. auto.
Defined.

(** C8 as the specification states it fails.  The session built from the
    commitment lists [01; 02] and [03] and the session built from [01] and
    [02; 03] are built from different pairs of lists and have the same
    identifier: both hash the serialization of [01; 02; 03].  By
    [sessionID_boundary] this does not depend on the hash. *)
Lemma sessionID_pairs_differ_identifier_equal :
  (DistKeyShare.Commitments Toy.long_12, DistKeyShare.Commitments Toy.random_3)
    <> (DistKeyShare.Commitments Toy.long_1, DistKeyShare.Commitments Toy.random_23) /\
  exists d d',
    NewDSS 3 Toy.participants Toy.long_12 Toy.random_3 Toy.message 2 = Ok d /\
    NewDSS 3 Toy.participants Toy.long_1 Toy.random_23 Toy.message 2 = Ok d' /\
    DSS.sessionID d = DSS.sessionID d'.
Proof.
  split; [discriminate|].
  eexists _, _. split; [reflexivity|]. split; [reflexivity|].
  exact (sessionID_boundary (S:=Toy.suite)
           (PriShare.mk _ 0 0) (PriShare.mk _ 0 0) (PriShare.mk _ 0 0)
           (PriShare.mk _ 0 0) [x01] [x02] [x03]).
Qed.

(** The two sessions above agree on the identifier because their lists
    concatenate to the same list; the session of participant 0 over the
    key shares of the instance, whose lists concatenate to another list,
    has another identifier. *)
Lemma sessionID_concatenation_witness :
  exists d d' d'',
    NewDSS 3 Toy.participants Toy.long_12 Toy.random_3 Toy.message 2 = Ok d /\
    NewDSS 3 Toy.participants Toy.long_1 Toy.random_23 Toy.message 2 = Ok d' /\
    Toy.new 3 0 2 = Ok d'' /\
    DSS.sessionID d = DSS.sessionID d' /\
    DSS.sessionID d <> DSS.sessionID d''.
Proof.
  eexists _, _, _. split; [reflexivity|]. split; [reflexivity|].
  split; [reflexivity|]. split.
  - refine (proj1 (sessionID_concatenation (S:=Toy.suite)
                     3 Toy.participants Toy.long_12 Toy.random_3 Toy.message 2 _
                     3 Toy.participants Toy.long_1 Toy.random_23 Toy.message 2 _
                     eq_refl eq_refl) eq_refl).
  - refine (proj2 (sessionID_concatenation (S:=Toy.suite)
                     3 Toy.participants Toy.long_12 Toy.random_3 Toy.message 2 _
                     3 Toy.participants (Toy.long 0) (Toy.random 0) Toy.message 2 _
                     eq_refl eq_refl) 1%nat _ _ _ _ _).
    + discriminate.
    + intros p. reflexivity.
    + intros p q Hpq. injection Hpq as ->. reflexivity.
    + intros H. exact H.
    + discriminate.
Defined.

(** * Further properties of the session *)

Section CallProperties.
Context {S : Suite} {P : Packages S}.

Implicit Types (d : DSS.t) (ps : PartialSig.t) (c : call) (cs : list call).

(** ** What acceptance means *)

(** An accepted partial signature has passed the five checks. *)
Lemma ProcessPartialSig_accepted d ps d' :
  DSS.ProcessPartialSig ps d = (Done None, d') ->
  let i := PriShare.I (PartialSig.Partial ps) in
  0 <= i < Z.of_nat (length (DSS.participants d)) /\
  exists public hash,
    DSS.participants d !! Z.to_nat i = Some public /\
    schnorr_Verify public (PartialSig.Hash ps) (PartialSig.Signature ps) = None /\
    PartialSig.SessionID ps = DSS.sessionID d /\
    DSS.partialsIdx d !! i = None /\
    fst (DSS.hashSig d) = Done hash /\
    Point_Equal (Mul (PriShare.V (PartialSig.Partial ps)) None)
      (Point_Add (randShare d i) (Mul hash (Some (longShare d i)))) = true /\
    d' = recorded (PartialSig.Partial ps) d.
Proof.
  intros Hacc i.
  destruct (Z_lt_le_dec i 0) as [Hneg|Hpos].
  { rewrite ProcessPartialSig_below in Hacc by done. congruence. }
  destruct (Z_lt_le_dec i (Z.of_nat (length (DSS.participants d)))) as [Hin|Hout].
  2:{ rewrite ProcessPartialSig_above in Hacc by (fold i; lia). congruence. }
  split; [lia|].
  destruct (findPub_inside (DSS.participants d) i) as (public & Hl & Hp); [lia|].
  rewrite (ProcessPartialSig_checks d ps public Hp) in Hacc. fold i in Hacc.
  destruct (schnorr_Verify _ _ _) eqn:Htag; [congruence|].
  destruct (bytes_Equal _ _) eqn:Hsid; [|congruence].
  apply bytes_Equal_eq in Hsid.
  destruct (DSS.partialsIdx d !! i) eqn:Hidx; [congruence|].
  destruct (fst (DSS.hashSig d)) as [hash|] eqn:Hhash; simpl in Hacc; [|congruence].
  fold (randShare d i) (longShare d i) in Hacc.
  destruct (Point_Equal _ _) eqn:Hval; [|congruence].
  exists public, hash. repeat split; try done. congruence.
Qed.

(** The session after a call of [ProcessPartialSig]. *)
Lemma ProcessPartialSig_after d ps :
  snd (DSS.ProcessPartialSig ps d) = d \/
  (DSS.partialsIdx d !! PriShare.I (PartialSig.Partial ps) = None /\
   (exists hash, fst (DSS.hashSig d) = Done hash) /\
   snd (DSS.ProcessPartialSig ps d) = recorded (PartialSig.Partial ps) d).
Proof.
  destruct (DSS.ProcessPartialSig ps d) as [r d'] eqn:Hrun. simpl.
  destruct r as [[err|]|e].
  - left. apply (ProcessPartialSig_atomic _ _ _ _ Hrun). congruence.
  - right. destruct (ProcessPartialSig_accepted _ _ _ Hrun)
      as (_ & public & hash & _ & _ & _ & Hidx & Hhash & _ & ->). eauto.
  - left. apply (ProcessPartialSig_atomic _ _ _ _ Hrun). congruence.
Qed.

(** The session after a call of [PartialSig]. *)
Lemma PartialSig_after (r : Entropy) d :
  snd (DSS.PartialSig r d) = d \/
  (DSS.signed d = false /\
   exists hash, fst (DSS.hashSig d) = Done hash /\
     snd (DSS.PartialSig r d) = DSS.set_signed true (recorded (response d hash) d)).
Proof.
  rewrite PartialSig_eq. destruct (fst (DSS.hashSig d)) as [hash|]; [|by left].
  simpl. destruct (DSS.signed d); [by left|]. right. split; [done|]. by exists hash.
Qed.

(** X1.  [ProcessPartialSig] returns the nil error exactly for a partial
    signature whose index is inside the registry, whose tag verifies under
    the participant of that index, whose session identifier is the one of
    the session, whose index is not in the accepted set and whose response
    satisfies the algebraic identity for the challenge of the session; in
    every other case the session is left as it was. *)
Theorem ProcessPartialSig_accept_iff d ps :
  let i := PriShare.I (PartialSig.Partial ps) in
  (fst (DSS.ProcessPartialSig ps d) = Done None <->
   0 <= i < Z.of_nat (length (DSS.participants d)) /\
   exists public hash,
     DSS.participants d !! Z.to_nat i = Some public /\
     schnorr_Verify public (PartialSig.Hash ps) (PartialSig.Signature ps) = None /\
     PartialSig.SessionID ps = DSS.sessionID d /\
     DSS.partialsIdx d !! i = None /\
     fst (DSS.hashSig d) = Done hash /\
     Point_Equal (Mul (PriShare.V (PartialSig.Partial ps)) None)
       (Point_Add (randShare d i) (Mul hash (Some (longShare d i)))) = true) /\
  (fst (DSS.ProcessPartialSig ps d) = Done None ->
   snd (DSS.ProcessPartialSig ps d) = recorded (PartialSig.Partial ps) d) /\
  (fst (DSS.ProcessPartialSig ps d) <> Done None ->
   snd (DSS.ProcessPartialSig ps d) = d).
Proof.
  intros i. destruct (DSS.ProcessPartialSig ps d) as [res d'] eqn:Hrun. simpl.
  split; [split|split].
  - intros ->. destruct (ProcessPartialSig_accepted _ _ _ Hrun)
      as (Hi & public & hash & H). split; [done|]. exists public, hash. tauto.
  - intros (Hi & public & hash & Hl & Htag & Hsid & Hidx & Hhash & Hval).
    destruct (findPub_inside (DSS.participants d) i Hi) as (public' & Hl' & Hp).
    fold i in Hl'. rewrite Hl in Hl'. injection Hl' as <-.
    rewrite (ProcessPartialSig_checks d ps public Hp), Htag in Hrun.
    rewrite (proj2 (bytes_Equal_eq _ _) Hsid) in Hrun. fold i in Hrun.
    rewrite Hidx, Hhash in Hrun. simpl in Hrun.
    fold (randShare d i) (longShare d i) in Hrun. rewrite Hval in Hrun. congruence.
  - intros ->. by destruct (ProcessPartialSig_accepted _ _ _ Hrun)
      as (_ & public & hash & _ & _ & _ & _ & _ & _ & ->).
  - intros Hne. by apply (ProcessPartialSig_atomic _ _ _ _ Hrun).
Qed.

(** ** What the methods never touch *)

Lemma same_configuration_refl d : same_configuration d d.
Proof. by destruct d. Qed.

Lemma same_configuration_trans d1 d2 d3 :
  same_configuration d1 d2 -> same_configuration d2 d3 -> same_configuration d1 d3.
Proof.
  destruct d1, d2, d3. unfold same_configuration. simpl.
  intros H1 H2. injection H1 as -> -> -> -> -> -> -> -> -> -> ->.
  injection H2 as -> -> -> -> -> -> -> -> -> -> ->. reflexivity.
Qed.

Lemma same_configuration_recorded (s : PriShare.t) d :
  same_configuration d (recorded s d).
Proof. by destruct d. Qed.

Lemma same_configuration_signed (b : bool) d : same_configuration d (DSS.set_signed b d).
Proof. by destruct d. Qed.

Lemma after_call_configuration c d : same_configuration d (after_call c d).
Proof.
  destruct c as [r|ps| |]; simpl.
  - destruct (PartialSig_after r d) as [->|(_ & hash & _ & ->)].
    + apply same_configuration_refl.
    + eapply same_configuration_trans;
        [apply same_configuration_recorded|apply same_configuration_signed].
  - destruct (ProcessPartialSig_after d ps) as [->|(_ & _ & ->)].
    + apply same_configuration_refl.
    + apply same_configuration_recorded.
  - apply same_configuration_refl.
  - rewrite Signature_state. apply same_configuration_refl.
Qed.

Lemma same_configuration_fields d d' :
  same_configuration d d' ->
  DSS.secret d' = DSS.secret d /\ DSS.public d' = DSS.public d /\
  DSS.index d' = DSS.index d /\ DSS.participants d' = DSS.participants d /\
  DSS.T d' = DSS.T d /\ DSS.long d' = DSS.long d /\ DSS.random d' = DSS.random d /\
  DSS.longPoly d' = DSS.longPoly d /\ DSS.randomPoly d' = DSS.randomPoly d /\
  DSS.msg d' = DSS.msg d /\ DSS.sessionID d' = DSS.sessionID d.
Proof.
  destruct d, d'. unfold same_configuration. simpl.
  intros H. injection H as -> -> -> -> -> -> -> -> -> -> ->. repeat split.
Qed.

Lemma after_calls_same_configuration cs d : same_configuration d (after_calls cs d).
Proof.
  revert d. induction cs as [|c cs IH]; intros d; simpl.
  - apply same_configuration_refl.
  - eapply same_configuration_trans; [apply after_call_configuration|apply IH].
Qed.

(** X2.  Whatever the user calls, in whatever order and with whatever
    outcome, the session keeps its secret, public point, index, registry,
    threshold, key shares, public polynomials, message and session
    identifier: the methods assign the accepted set, the accepted list and
    the issuance flag only. *)
Theorem after_calls_configuration cs d :
  let d' := after_calls cs d in
  DSS.secret d' = DSS.secret d /\ DSS.public d' = DSS.public d /\
  DSS.index d' = DSS.index d /\ DSS.participants d' = DSS.participants d /\
  DSS.T d' = DSS.T d /\ DSS.long d' = DSS.long d /\ DSS.random d' = DSS.random d /\
  DSS.longPoly d' = DSS.longPoly d /\ DSS.randomPoly d' = DSS.randomPoly d /\
  DSS.msg d' = DSS.msg d /\ DSS.sessionID d' = DSS.sessionID d.
Proof.
  simpl. apply same_configuration_fields, after_calls_same_configuration.
Qed.

(** ** What the methods keep *)

Lemma recorded_indexed (s : PriShare.t) d : indexed d -> indexed (recorded s d).
Proof.
  intros Hd i. unfold recorded. destruct d. simpl in *.
  rewrite lookup_insert_is_Some. specialize (Hd i). simpl in Hd.
  split.
  - intros [<-|[_ Hi]].
    + exists s. split; [|done]. apply elem_of_app. right.
      by apply list_elem_of_singleton.
    + apply Hd in Hi as (s' & Hs' & <-). exists s'. split; [|done].
      apply elem_of_app. by left.
  - intros (s' & Hs' & <-). apply elem_of_app in Hs' as [Hs'|Hs'].
    + destruct (decide (PriShare.I s = PriShare.I s')) as [|Hne]; [by left|].
      right. split; [done|]. apply Hd. eauto.
    + apply list_elem_of_singleton in Hs' as ->. by left.
Qed.

Lemma set_signed_indexed (b : bool) d : indexed d -> indexed (DSS.set_signed b d).
Proof. intros Hd i. destruct d. apply (Hd i). Qed.

Lemma elem_of_indices (i : Z) (l : list PriShare.t) :
  i ∈ map PriShare.I l <-> exists s, s ∈ l /\ PriShare.I s = i.
Proof.
  rewrite list_elem_of_In, in_map_iff. split.
  - intros (s & <- & Hs). exists s. by rewrite list_elem_of_In.
  - intros (s & Hs & <-). exists s. by rewrite <- list_elem_of_In.
Qed.

Lemma recorded_distinct (s : PriShare.t) d :
  indexed d -> DSS.partialsIdx d !! PriShare.I s = None ->
  distinct d -> distinct (recorded s d).
Proof.
  intros Hidx Hnew Hd. unfold distinct, recorded in *. destruct d. simpl in *.
  rewrite map_app. apply NoDup_app. split; [done|]. split.
  - intros i Hi Hs. simpl in Hs. apply list_elem_of_singleton in Hs as ->.
    apply elem_of_indices in Hi. apply (Hidx (PriShare.I s)) in Hi. simpl in Hi.
    rewrite Hnew in Hi. by destruct Hi.
  - simpl. apply NoDup_singleton.
Qed.

Lemma set_signed_distinct (b : bool) d : distinct d -> distinct (DSS.set_signed b d).
Proof. by destruct d. Qed.

Lemma after_call_indexed c d : indexed d -> indexed (after_call c d).
Proof.
  intros Hd. destruct c as [r|ps| |]; simpl.
  - destruct (PartialSig_after r d) as [->|(_ & hash & _ & ->)]; [done|].
    by apply set_signed_indexed, recorded_indexed.
  - destruct (ProcessPartialSig_after d ps) as [->|(_ & _ & ->)]; [done|].
    by apply recorded_indexed.
  - done.
  - by rewrite Signature_state.
Qed.

Lemma after_calls_indexed_from cs d : indexed d -> indexed (after_calls cs d).
Proof.
  revert d. induction cs as [|c cs IH]; intros d Hd; simpl; [done|].
  by apply IH, after_call_indexed.
Qed.

(** The session [NewDSS] returns holds no share. *)
Lemma NewDSS_fresh secret participants long random msg T d :
  NewDSS secret participants long random msg T = Ok d ->
  DSS.partials d = [] /\ DSS.partialsIdx d = ∅ /\ DSS.signed d = false /\
  DSS.sessionID d = sessionID long random /\ DSS.long d = long /\
  DSS.random d = random /\ DSS.msg d = msg /\ DSS.T d = T /\
  DSS.participants d = participants /\ DSS.secret d = secret /\
  DSS.public d = Mul secret None.
Proof.
  rewrite NewDSS_eq. simpl. destruct (fst _); [|done]. by intros [= <-].
Qed.

Lemma fresh_indexed d :
  DSS.partials d = [] -> DSS.partialsIdx d = ∅ -> indexed d.
Proof.
  intros Hp Hi i. rewrite Hp, Hi, lookup_empty. split.
  - by intros [? ?].
  - intros (s & Hs & _). by apply elem_of_nil in Hs.
Qed.


(** The challenge is the same in every state of a session. *)
Lemma hashSig_configuration d d' :
  same_configuration d d' -> fst (DSS.hashSig d') = fst (DSS.hashSig d).
Proof.
  intros H. apply same_configuration_fields in H
    as (_ & _ & _ & _ & _ & Hl & Hr & _ & _ & Hm & _).
  rewrite !hashSig_eq. simpl. by rewrite Hl, Hr, Hm.
Qed.

(** The three ways a call of [PartialSig] ends. *)
Lemma PartialSig_outcomes (r : Entropy) d :
  ((exists e, fst (DSS.hashSig d) = Panic e) /\ snd (DSS.PartialSig r d) = d) \/
  (DSS.signed d = true /\ snd (DSS.PartialSig r d) = d) \/
  (DSS.signed d = false /\
   exists hash, fst (DSS.hashSig d) = Done hash /\
     snd (DSS.PartialSig r d) = DSS.set_signed true (recorded (response d hash) d)).
Proof.
  rewrite PartialSig_eq. destruct (fst (DSS.hashSig d)) as [hash|e]; [|left; eauto].
  simpl. destruct (DSS.signed d); [right; by left|]. right. right. eauto.
Qed.

Lemma after_calls_distinct_from cs d :
  indexed d -> distinct d ->
  (DSS.signed d = false -> DSS.partialsIdx d !! DSS.index d = None) ->
  (DSS.signed d = true \/ (exists e, fst (DSS.hashSig d) = Panic e) \/
   issue_first (DSS.index d) cs) ->
  distinct (after_calls cs d).
Proof.
  revert d. induction cs as [|c cs IH]; intros d Hidx Hdis Hown Hord; simpl; [done|].
  pose proof (after_call_configuration c d) as Hconf.
  pose proof (hashSig_configuration _ _ Hconf) as Hhash.
  apply same_configuration_fields in Hconf as (_ & _ & Hindex & _).
  apply IH; [by apply after_call_indexed| | |]; rewrite ?Hindex, ?Hhash;
    destruct c as [r|ps| |]; simpl in *; try rewrite Signature_state; try done.
  - destruct (PartialSig_outcomes r d) as [[_ ->]|[[_ ->]|(Hs & hash & _ & ->)]]; try done.
    apply set_signed_distinct, recorded_distinct; auto.
  - destruct (ProcessPartialSig_after d ps) as [->|(Hnew & _ & ->)]; [done|].
    by apply recorded_distinct.
  - destruct (PartialSig_outcomes r d) as [[_ ->]|[[_ ->]|(Hs & hash & _ & ->)]]; done.
  - destruct (ProcessPartialSig_after d ps) as [->|(Hnew & [hash Hh] & ->)]; [done|].
    intros Hs. assert (Hs' : DSS.signed d = false) by (by destruct d).
    destruct Hord as [Ht|[[e He]|[Hne _]]]; [congruence|congruence|].
    destruct d. simpl in *. rewrite lookup_insert_ne by done. auto.
  - destruct (PartialSig_outcomes r d) as [[He ->]|[[Ht ->]|(Hs & hash & _ & ->)]].
    + right. by left.
    + by left.
    + left. by destruct d.
  - destruct (ProcessPartialSig_after d ps) as [->|(Hnew & _ & ->)].
    + destruct Hord as [Ht|[He|[_ Hcs]]]; auto.
    + destruct Hord as [Ht|[He|[_ Hcs]]]; auto.
Qed.


(** ** What only grows *)

Lemma after_call_grows c d :
  (exists l, DSS.partials (after_call c d) = DSS.partials d ++ l) /\
  (forall i, is_Some (DSS.partialsIdx d !! i) ->
             is_Some (DSS.partialsIdx (after_call c d) !! i)) /\
  (DSS.signed d = true -> DSS.signed (after_call c d) = true).
Proof.
  assert (Hsame : (exists l, DSS.partials d = DSS.partials d ++ l) /\
    (forall i, is_Some (DSS.partialsIdx d !! i) -> is_Some (DSS.partialsIdx d !! i)) /\
    (DSS.signed d = true -> DSS.signed d = true)).
  { split; [exists []; by rewrite app_nil_r|done]. }
  assert (Hrec : forall s, (exists l, DSS.partials (recorded s d) = DSS.partials d ++ l) /\
    (forall i, is_Some (DSS.partialsIdx d !! i) ->
               is_Some (DSS.partialsIdx (recorded s d) !! i))).
  { intros s. destruct d. simpl. split; [by exists [s]|].
    intros i Hi. apply lookup_insert_is_Some'. by right. }
  destruct c as [r|ps| |]; simpl.
  - destruct (PartialSig_after r d) as [->|(_ & hash & _ & ->)]; [done|].
    destruct (Hrec (response d hash)) as [Hl Hk].
    split; [|split]; [by destruct d|by destruct d|by destruct d].
  - destruct (ProcessPartialSig_after d ps) as [->|(_ & _ & ->)]; [done|].
    destruct (Hrec (PartialSig.Partial ps)) as [Hl Hk].
    split; [done|]. split; [done|]. by destruct d.
  - done.
  - by rewrite Signature_state.
Qed.

Lemma after_calls_grows_from cs d :
  (exists l, DSS.partials (after_calls cs d) = DSS.partials d ++ l) /\
  (forall i, is_Some (DSS.partialsIdx d !! i) ->
             is_Some (DSS.partialsIdx (after_calls cs d) !! i)) /\
  (DSS.signed d = true -> DSS.signed (after_calls cs d) = true).
Proof.
  revert d. induction cs as [|c cs IH]; intros d; simpl.
  - split; [exists []; by rewrite app_nil_r|done].
  - destruct (after_call_grows c d) as ([l1 Hl1] & Hk1 & Hs1).
    destruct (IH (after_call c d)) as ([l2 Hl2] & Hk2 & Hs2).
    split; [|split]; auto.
    exists (l1 ++ l2). by rewrite Hl2, Hl1, app_assoc.
Qed.

(** X5.  No call removes anything: after any calls the accepted list
    extends the list before them, every accepted index is still accepted,
    a session that has issued has still issued, and a threshold predicate
    that was true is still true. *)
Theorem after_calls_grows cs d :
  (exists l, DSS.partials (after_calls cs d) = DSS.partials d ++ l) /\
  (forall i, is_Some (DSS.partialsIdx d !! i) ->
             is_Some (DSS.partialsIdx (after_calls cs d) !! i)) /\
  (DSS.signed d = true -> DSS.signed (after_calls cs d) = true) /\
  (fst (DSS.EnoughPartialSig d) = Done true ->
   fst (DSS.EnoughPartialSig (after_calls cs d)) = Done true).
Proof.
  pose proof (after_calls_grows_from cs d) as H3.
  destruct H3 as ([l Hl] & Hk & Hs). repeat split; eauto.
  rewrite !EnoughPartialSig_eq. simpl.
  destruct (same_configuration_fields _ _ (after_calls_same_configuration cs d))
    as (_ & _ & _ & _ & HT & _).
  rewrite HT, Hl, length_app. intros [= Hen].
  apply bool_decide_eq_true in Hen. f_equal. apply bool_decide_eq_true. lia.
Qed.

(** ** Submitting twice *)

(** X6.  A partial signature that the session has accepted is rejected
    with the already-received error whenever it is submitted again, at once
    or after any other calls, and the rejection changes nothing. *)
Theorem ProcessPartialSig_again d ps d1 cs :
  DSS.ProcessPartialSig ps d = (Done None, d1) ->
  DSS.ProcessPartialSig ps (after_calls cs d1)
  = (Done (Some (errors_New "dss: partial signature already received from peer")),
     after_calls cs d1).
Proof.
  intros Hacc.
  destruct (ProcessPartialSig_accepted _ _ _ Hacc)
    as (Hi & public & hash & Hl & Htag & Hsid & _ & _ & _ & ->).
  set (d2 := after_calls cs (recorded (PartialSig.Partial ps) d)).
  destruct (same_configuration_fields _ _
              (after_calls_same_configuration cs (recorded (PartialSig.Partial ps) d)))
    as (_ & _ & _ & Hpart & _ & _ & _ & _ & _ & _ & Hid).
  fold d2 in Hpart, Hid.
  assert (Hpart' : DSS.participants d2 = DSS.participants d) by (rewrite Hpart; by destruct d).
  assert (Hid' : DSS.sessionID d2 = DSS.sessionID d) by (rewrite Hid; by destruct d).
  destruct (findPub_inside (DSS.participants d2) (PriShare.I (PartialSig.Partial ps)))
    as (public' & Hl' & Hp'); [by rewrite Hpart'|].
  rewrite Hpart', Hl in Hl'. injection Hl' as <-.
  rewrite (ProcessPartialSig_checks d2 ps public Hp'), Htag, Hid'.
  rewrite (proj2 (bytes_Equal_eq _ _) Hsid).
  destruct (after_calls_grows_from cs (recorded (PartialSig.Partial ps) d)) as (_ & Hk & _).
  destruct (Hk (PriShare.I (PartialSig.Partial ps))) as [b Hb].
  { destruct d. simpl. rewrite lookup_insert_eq. eauto. }
  fold d2 in Hb. by rewrite Hb.
Qed.

(** ** Issuing and submitting *)

(** The index of a session built by [NewDSS] is the position of a
    participant equal to its public point. *)
Lemma NewDSS_own_index secret participants long random msg T d :
  NewDSS secret participants long random msg T = Ok d ->
  0 <= DSS.index d < Z.of_nat (length (DSS.participants d)) /\
  exists p, DSS.participants d !! Z.to_nat (DSS.index d) = Some p /\
            Point_Equal p (DSS.public d) = true.
Proof.
  rewrite NewDSS_eq. simpl.
  destruct (scan (Mul secret None) participants 0) as [found i] eqn:Hscan. simpl.
  destruct found; [|done]. intros [= <-]. simpl.
  destruct (scan_found _ _ _ _ Hscan) as (Hi & p & Hp & He & _).
  rewrite Z.sub_0_r in Hp. split; [|eauto].
  apply lookup_lt_Some in Hp. lia.
Qed.

Lemma after_call_signed_own c d :
  (DSS.signed d = true -> is_Some (DSS.partialsIdx d !! DSS.index d)) ->
  DSS.signed (after_call c d) = true ->
  is_Some (DSS.partialsIdx (after_call c d) !! DSS.index (after_call c d)).
Proof.
  intros Hd. destruct c as [r|ps| |]; simpl.
  - destruct (PartialSig_after r d) as [->|(_ & hash & _ & ->)]; [done|].
    intros _. destruct d. simpl. rewrite lookup_insert_eq. eauto.
  - destruct (ProcessPartialSig_after d ps) as [->|(_ & _ & ->)]; [done|].
    intros Hs. destruct d. simpl in *. apply lookup_insert_is_Some'. right. auto.
  - done.
  - by rewrite Signature_state.
Qed.

Lemma after_calls_signed_own cs d :
  (DSS.signed d = true -> is_Some (DSS.partialsIdx d !! DSS.index d)) ->
  DSS.signed (after_calls cs d) = true ->
  is_Some (DSS.partialsIdx (after_calls cs d) !! DSS.index (after_calls cs d)).
Proof.
  revert d. induction cs as [|c cs IH]; intros d Hd; simpl; [done|].
  apply IH. by apply after_call_signed_own.
Qed.

(** What a call of [PartialSig] that does not panic returns. *)
Lemma PartialSig_returns (r : Entropy) d ps err d1 :
  DSS.PartialSig r d = (Done (ps, err), d1) ->
  exists hash,
    fst (DSS.hashSig d) = Done hash /\
    PartialSig.Partial ps = response d hash /\
    PartialSig.SessionID ps = DSS.sessionID d /\
    DSS.signed d1 = true /\
    same_configuration d d1.
Proof.
  rewrite PartialSig_eq. destruct (fst (DSS.hashSig d)) as [hash|]; [|done].
  simpl. intros [= <- _ <-]. exists hash. repeat split.
  - destruct (DSS.signed d) eqn:Hs; [done|]. by destruct d.
  - destruct (DSS.signed d); [apply same_configuration_refl|].
    eapply same_configuration_trans;
      [apply (same_configuration_recorded (response d hash))|
       apply same_configuration_signed].
Qed.

(** X7.  In a session built by [NewDSS], once [PartialSig] has returned
    a partial signature, submitting that partial signature to the same
    session, at once or after any other calls, is rejected with the
    already-received error and changes nothing, provided the tag it carries
    verifies under the registry entry of the owner (when it does not, the
    submission is rejected by the tag check). *)
Theorem PartialSig_then_own_share
    secret participants long random msg T d0 cs0 (r : Entropy) ps err d1 cs public :
  NewDSS secret participants long random msg T = Ok d0 ->
  DSS.PartialSig r (after_calls cs0 d0) = (Done (ps, err), d1) ->
  DSS.participants d0 !! Z.to_nat (DSS.index d0) = Some public ->
  schnorr_Verify public (PartialSig.Hash ps) (PartialSig.Signature ps) = None ->
  DSS.ProcessPartialSig ps (after_calls cs d1)
  = (Done (Some (errors_New "dss: partial signature already received from peer")),
     after_calls cs d1).
Proof.
  intros Hnew Hiss Hpub Htag.
  destruct (NewDSS_fresh _ _ _ _ _ _ _ Hnew) as (_ & _ & Hs0 & _).
  destruct (NewDSS_own_index _ _ _ _ _ _ _ Hnew) as (Hrange & _).
  destruct (PartialSig_returns _ _ _ _ _ Hiss) as (hash & _ & Hshare & Hsid & Hs1 & Hc1).
  set (d := after_calls cs0 d0) in *. set (d2 := after_calls cs d1).
  pose proof (same_configuration_fields _ _ (after_calls_same_configuration cs0 d0)) as F0.
  pose proof (same_configuration_fields _ _ Hc1) as F1.
  pose proof (same_configuration_fields _ _ (after_calls_same_configuration cs d1)) as F2.
  fold d in F0. fold d2 in F2.
  destruct F0 as (_ & _ & Hi0 & Hp0 & _ & _ & _ & _ & _ & _ & Hid0).
  destruct F1 as (_ & _ & Hi1 & Hp1 & _ & _ & _ & _ & _ & _ & Hid1).
  destruct F2 as (_ & _ & Hi2 & Hp2 & _ & _ & _ & _ & _ & _ & Hid2).
  assert (Hidx : PriShare.I (PartialSig.Partial ps) = DSS.index d0).
  { rewrite Hshare. simpl. done. }
  assert (Hkey : is_Some (DSS.partialsIdx d2 !! DSS.index d0)).
  { assert (Hown : DSS.signed d1 = true ->
                   is_Some (DSS.partialsIdx d1 !! DSS.index d1)).
    { intros _. pose proof (f_equal snd Hiss) as Hd1. simpl in Hd1. rewrite <- Hd1.
      replace (DSS.PartialSig r d).2 with (after_call (CallPartialSig r) d) by done.
      apply after_call_signed_own; [|simpl; by rewrite Hd1].
      apply after_calls_signed_own. congruence. }
    pose proof (after_calls_signed_own cs d1 Hown) as Hk. fold d2 in Hk.
    rewrite Hi2, Hi1, Hi0 in Hk. apply Hk.
    by apply (after_calls_grows_from cs d1). }
  destruct (findPub_inside (DSS.participants d2) (PriShare.I (PartialSig.Partial ps)))
    as (public' & Hl' & Hp').
  { rewrite Hidx, Hp2, Hp1, Hp0. done. }
  rewrite Hidx, Hp2, Hp1, Hp0, Hpub in Hl'. injection Hl' as <-.
  rewrite (ProcessPartialSig_checks d2 ps public Hp'), Htag.
  rewrite (proj2 (bytes_Equal_eq _ _)) by congruence.
  rewrite Hidx. destruct Hkey as [b ->]. done.
Qed.

(** X8.  Issuing again returns the same share.  Once [PartialSig] has
    returned, every later call of it, whatever was called in between,
    returns a partial signature with the same index, the same response
    and the same session identifier, and leaves the session as it is:
    the owner's share is recorded by the first call only. *)
Theorem PartialSig_again (r1 r2 : Entropy) d ps1 err1 d1 cs :
  DSS.PartialSig r1 d = (Done (ps1, err1), d1) ->
  exists sig err2,
    DSS.PartialSig r2 (after_calls cs d1)
    = (Done (PartialSig.mk _ (PartialSig.Partial ps1) (PartialSig.SessionID ps1) sig,
             err2),
       after_calls cs d1).
Proof.
  intros Hiss.
  destruct (PartialSig_returns _ _ _ _ _ Hiss) as (hash & Hhash & Hshare & Hsid & Hs1 & Hc1).
  set (d2 := after_calls cs d1).
  pose proof (after_calls_same_configuration cs d1) as Hc2. fold d2 in Hc2.
  pose proof (same_configuration_trans _ _ _ Hc1 Hc2) as Hc.
  pose proof (hashSig_configuration _ _ Hc) as Hh2.
  destruct (same_configuration_fields _ _ Hc)
    as (_ & _ & Hi & _ & _ & Hl & Hr & _ & _ & _ & Hid).
  assert (Hs2 : DSS.signed d2 = true) by (by apply (after_calls_grows_from cs d1)).
  rewrite PartialSig_eq, Hh2, Hhash. simpl. rewrite Hs2.
  assert (Hresp : response d2 hash = response d hash).
  { unfold response. by rewrite Hi, Hl, Hr. }
  rewrite Hresp, Hid, <- Hshare, <- Hsid. eauto.
Qed.

(** X9.  A partial signature issued in one session is never accepted by
    a session with another identifier: the submission does not return the
    nil error and leaves the receiving session as it is; when the index is
    in the registry of the receiver and the tag verifies there, the error
    is the session-mismatch error. *)
Theorem PartialSig_other_session (r : Entropy) dA ps err dA' dB :
  DSS.PartialSig r dA = (Done (ps, err), dA') ->
  DSS.sessionID dA <> DSS.sessionID dB ->
  fst (DSS.ProcessPartialSig ps dB) <> Done None /\
  snd (DSS.ProcessPartialSig ps dB) = dB /\
  (forall public,
     0 <= DSS.index dA ->
     DSS.participants dB !! Z.to_nat (DSS.index dA) = Some public ->
     schnorr_Verify public (PartialSig.Hash ps) (PartialSig.Signature ps) = None ->
     fst (DSS.ProcessPartialSig ps dB)
     = Done (Some (errors_New "dss: session id do not match"))).
Proof.
  intros Hiss Hne.
  destruct (PartialSig_returns _ _ _ _ _ Hiss) as (hash & _ & Hshare & Hsid & _).
  assert (Hrej : fst (DSS.ProcessPartialSig ps dB) <> Done None).
  { destruct (DSS.ProcessPartialSig ps dB) as [res dB'] eqn:Hrun. simpl.
    intros ->. destruct (ProcessPartialSig_accepted _ _ _ Hrun)
      as (_ & public & h & _ & _ & Hs & _). congruence. }
  split; [done|]. split.
  - destruct (DSS.ProcessPartialSig ps dB) as [res dB'] eqn:Hrun.
    by apply (ProcessPartialSig_atomic _ _ _ _ Hrun).
  - intros public Hpos Hl Htag.
    assert (Hidx : PriShare.I (PartialSig.Partial ps) = DSS.index dA) by by rewrite Hshare.
    destruct (findPub_inside (DSS.participants dB) (PriShare.I (PartialSig.Partial ps)))
      as (public' & Hl' & Hp').
    { rewrite Hidx. apply lookup_lt_Some in Hl. lia. }
    rewrite Hidx, Hl in Hl'. injection Hl' as <-.
    rewrite (ProcessPartialSig_checks dB ps public Hp'), Htag.
    destruct (bytes_Equal _ _) eqn:Heq; [|done].
    apply bytes_Equal_eq in Heq. congruence.
Qed.

(** ** Key shares without commitments *)

(** X10.  When one of the two key shares of a session carries no
    commitment, [PartialSig] panics on every call, no submission is
    accepted, and no call ever changes the session: nothing is recorded
    and the session cannot issue. *)
Theorem empty_commitments d :
  DistKeyShare.Commitments (DSS.long d) = [] \/
  DistKeyShare.Commitments (DSS.random d) = [] ->
  (forall r : Entropy, DSS.PartialSig r d = (Panic (index_out_of_range 0 0), d)) /\
  (forall ps, fst (DSS.ProcessPartialSig ps d) <> Done None) /\
  (forall cs, after_calls cs d = d).
Proof.
  intros Hempty.
  assert (Hstuck : forall d', same_configuration d d' ->
            fst (DSS.hashSig d') = Panic (index_out_of_range 0 0)).
  { intros d' Hc. rewrite (hashSig_configuration _ _ Hc), hashSig_eq. simpl.
    destruct Hempty as [-> | ->]; [|done].
    by destruct (DistKeyShare.Commitments (DSS.random d)). }
  assert (Hcall : forall c d', same_configuration d d' -> after_call c d' = d').
  { intros c d' Hc. destruct c as [r|ps| |]; simpl.
    - destruct (PartialSig_after r d') as [->|(_ & hash & Hh & _)]; [done|].
      rewrite (Hstuck d' Hc) in Hh. done.
    - destruct (ProcessPartialSig_after d' ps) as [->|(_ & [hash Hh] & _)]; [done|].
      rewrite (Hstuck d' Hc) in Hh. done.
    - done.
    - apply Signature_state. }
  split; [|split].
  - intros r. rewrite PartialSig_eq, (Hstuck d (same_configuration_refl d)). done.
  - intros ps Hacc. destruct (DSS.ProcessPartialSig ps d) as [res d'] eqn:Hrun.
    simpl in Hacc. subst res.
    destruct (ProcessPartialSig_accepted _ _ _ Hrun)
      as (_ & public & hash & _ & _ & _ & _ & Hh & _).
    rewrite (Hstuck d (same_configuration_refl d)) in Hh. done.
  - intros cs. induction cs as [|c cs IH]; simpl; [done|].
    rewrite (Hcall c d (same_configuration_refl d)). apply IH.
Qed.
End CallProperties.

(** ** Honest shares *)

Section Honest.
Context {S : Suite} {P : Packages S} (L : SuiteLaws S) (G : SchnorrLaws S P).

(** X11.  An honest share is accepted.  Let the session [dj] issue a
    partial signature without error.  A session [di] with the same
    identifier, message and commitment lists, whose registry holds the
    public point of the issuer at the issuer's index, whose public
    polynomials commit at that index to the two secret shares of the
    issuer, and which has not accepted that index yet, accepts it: the
    response [hash * alpha + beta] satisfies the identity that
    [ProcessPartialSig] checks, and the share is recorded. *)
Theorem honest_share_accepted (r : Entropy) dj ps dj' di :
  DSS.PartialSig r dj = (Done (ps, None), dj') ->
  DSS.sessionID di = DSS.sessionID dj ->
  DSS.msg di = DSS.msg dj ->
  DistKeyShare.Commitments (DSS.long di) = DistKeyShare.Commitments (DSS.long dj) ->
  DistKeyShare.Commitments (DSS.random di) = DistKeyShare.Commitments (DSS.random dj) ->
  0 <= DSS.index dj ->
  DSS.participants di !! Z.to_nat (DSS.index dj) = Some (Mul (DSS.secret dj) None) ->
  Mul (PriShare.V (DistKeyShare.PriShare (DSS.long dj))) None
    = longShare di (DSS.index dj) ->
  Mul (PriShare.V (DistKeyShare.PriShare (DSS.random dj))) None
    = randShare di (DSS.index dj) ->
  DSS.partialsIdx di !! DSS.index dj = None ->
  DSS.ProcessPartialSig ps di = (Done None, recorded (PartialSig.Partial ps) di).
Proof.
  intros Hiss Hsid Hmsg Hlong Hrand Hpos Hreg Hal Hbe Hnew.
  rewrite PartialSig_eq in Hiss.
  destruct (fst (DSS.hashSig dj)) as [hash|] eqn:Hhash; [|done].
  simpl in Hiss.
  destruct (schnorr_Sign r (DSS.secret dj) _) as [sig|] eqn:Hsign; [|done].
  injection Hiss as <- _. clear dj'.
  apply Sign_Verify in Hsign.
  assert (Hhash' : fst (DSS.hashSig di) = Done hash).
  { rewrite <- Hhash, !hashSig_eq. simpl. by rewrite Hlong, Hrand, Hmsg. }
  destruct (findPub_inside (DSS.participants di) (DSS.index dj)) as (public & Hl & Hp).
  { apply lookup_lt_Some in Hreg. lia. }
  rewrite Hreg in Hl. injection Hl as <-.
  match goal with
  | |- DSS.ProcessPartialSig ?ps _ = _ => rewrite (ProcessPartialSig_checks di ps _ Hp)
  end. simpl.
  unfold PartialSig.Hash in *. simpl in *. rewrite Hsign.
  rewrite (proj2 (bytes_Equal_eq _ _)) by done.
  rewrite Hnew, Hhash'. simpl.
  fold (randShare di (DSS.index dj)) (longShare di (DSS.index dj)).
  rewrite (proj2 (Point_Equal_eq _ _)); [done|].
  rewrite Mul_Add, Mul_Mul, Hal, Hbe. apply Point_Add_comm.
Qed.
End Honest.

(** ** What the accepted list holds *)

Section Accepted.
Context {S : Suite} {P : Packages S}.

Implicit Types (d : DSS.t) (c : call) (cs : list call).

Lemma indexed_distinct_size d :
  indexed d -> distinct d ->
  size (DSS.partialsIdx d) = length (DSS.partials d).
Proof.
  intros Hidx Hdis. rewrite <- (length_map PriShare.I (DSS.partials d)).
  rewrite <- (size_list_to_set (C:=gset Z)) by done.
  rewrite <- size_dom. f_equal. apply set_eq. intros i.
  rewrite elem_of_dom, elem_of_list_to_set, elem_of_indices. apply Hidx.
Qed.

(** X12.  In a session built by [NewDSS], as long as no partial
    signature with the index of the owner is submitted before the first
    call of [PartialSig], a threshold predicate that answers true means that
    at least [T] different indices are accepted: the accepted set has as
    many keys as the accepted list has shares. *)
Theorem EnoughPartialSig_distinct secret participants long random msg T d cs :
  NewDSS secret participants long random msg T = Ok d ->
  issue_first (DSS.index d) cs ->
  size (DSS.partialsIdx (after_calls cs d))
    = length (DSS.partials (after_calls cs d)) /\
  (fst (DSS.EnoughPartialSig (after_calls cs d)) = Done true ->
   Z.of_nat (size (DSS.partialsIdx (after_calls cs d))) >= T).
Proof.
  intros Hnew Hcs. destruct (NewDSS_fresh _ _ _ _ _ _ _ Hnew)
    as (Hp & Hi & _ & _ & _ & _ & _ & HT & _).
  assert (Hidx : indexed d) by (by apply fresh_indexed).
  assert (Hsize : size (DSS.partialsIdx (after_calls cs d))
                  = length (DSS.partials (after_calls cs d))).
  { apply indexed_distinct_size; [by apply after_calls_indexed_from|].
    apply after_calls_distinct_from; auto.
    - unfold distinct. rewrite Hp. apply NoDup_nil_2.
    - intros _. rewrite Hi. apply lookup_empty. }
  split; [done|]. rewrite Hsize, EnoughPartialSig_eq. simpl.
  destruct (same_configuration_fields _ _ (after_calls_same_configuration cs d))
    as (_ & _ & _ & _ & HT' & _).
  rewrite HT', HT. intros [= Hen]. by apply bool_decide_eq_true in Hen.
Qed.






End Accepted.

(** ** The small instance satisfies the laws *)

Lemma Toy_Z_of_byte_of_Z (z : Z) : Toy.Z_of_byte (Toy.byte_of_Z z) = z mod 256.
Proof.
  unfold Toy.Z_of_byte, Toy.byte_of_Z.
  assert (Hz : 0 <= z mod 256 < 256) by (apply Z.mod_pos_bound; lia).
  destruct (Byte.of_N (Z.to_N (z mod 256))) as [b|] eqn:Hb; simpl.
  - apply Byte.to_of_N in Hb. rewrite Hb. lia.
  - apply Byte.of_N_None_iff in Hb. lia.
Qed.

Lemma Toy_Z_of_point (z : Z) : Toy.Z_of_byte (Toy.point_of_Z z) = z mod Toy.q.
Proof.
  unfold Toy.point_of_Z. rewrite Toy_Z_of_byte_of_Z.
  assert (Hz : 0 <= z mod Toy.q < Toy.q) by (apply Z.mod_pos_bound; reflexivity).
  unfold Toy.q in *. apply Z.mod_small. lia.
Qed.

Lemma Toy_point_eq (a b : Z) :
  a mod Toy.q = b mod Toy.q -> Toy.point_of_Z a = Toy.point_of_Z b.
Proof. unfold Toy.point_of_Z. by intros ->. Qed.

Lemma Toy_Mul_base (a : Z) : Mul (a : Scalar) None = Toy.point_of_Z a.
Proof.
  unfold Mul. simpl. rewrite Toy_Z_of_point. apply Toy_point_eq.
  change (1 mod Toy.q) with 1. by rewrite Z.mul_1_r.
Qed.

Lemma Toy_Mul_point (h a : Z) :
  Mul (h : Scalar) (Some (Toy.point_of_Z a)) = Toy.point_of_Z (h * a).
Proof.
  unfold Mul. simpl. rewrite Toy_Z_of_point. apply Toy_point_eq.
  by rewrite Z.mul_mod_idemp_r.
Qed.

Lemma Toy_Add_point (a b : Z) :
  Point_Add (Toy.point_of_Z a) (Toy.point_of_Z b) = Toy.point_of_Z (a + b).
Proof.
  simpl. rewrite !Toy_Z_of_point. apply Toy_point_eq.
  by rewrite <- Z.add_mod.
Qed.

Lemma Toy_schnorr_laws : SchnorrLaws Toy.suite Toy.packages.
Proof.
  split.
  - intros a b. rewrite !Toy_Mul_base, Toy_Add_point. apply Toy_point_eq.
    change (Scalar_Add a b) with ((a + b) mod Toy.q). by rewrite Z.mod_mod.
  - intros h a. rewrite !Toy_Mul_base, Toy_Mul_point. apply Toy_point_eq.
    change (Scalar_Mul h a) with ((h * a) mod Toy.q). by rewrite Z.mod_mod.
  - intros r x m sig. change (schnorr_Sign r x m) with (Toy.sign r x m).
    change (schnorr_Verify (Mul x None) m sig)
      with (Toy.verify (fun A R m => Toy.scalar_of_bytes
              (Point_MarshalTo A ++ Point_MarshalTo R ++ m)) (Mul x None) m sig).
    unfold Toy.sign. destruct r as [|b r]; [done|].
    set (k := Toy.scalar_of_bytes (b :: r)).
    set (h := Toy.scalar_of_bytes _).
    intros [= <-]. unfold Toy.verify.
    change (@Point_MarshalTo Toy.suite (@Mul Toy.suite k None))
      with [@Mul Toy.suite k None].
    change (@Scalar_MarshalTo Toy.suite
              (@Scalar_Add Toy.suite k (@Scalar_Mul Toy.suite x h)))
      with [Toy.byte_of_Z (((k + (x * h) mod Toy.q) mod Toy.q) mod Toy.q)].
    cbn [app]. fold h.
    assert (Heq : @Mul Toy.suite (Toy.Z_of_byte
                         (Toy.byte_of_Z (((k + (x * h) mod Toy.q) mod Toy.q) mod Toy.q)))
                    None
                  = @Point_Add Toy.suite (@Mul Toy.suite k None)
                      (@Point_Mul Toy.suite h (@Mul Toy.suite x None))).
    { fold (Toy.point_of_Z ((k + (x * h) mod Toy.q) mod Toy.q)).
      rewrite Toy_Z_of_point, !Toy_Mul_base.
      change (@Point_Mul Toy.suite h (Toy.point_of_Z x))
        with (@Mul Toy.suite h (Some (Toy.point_of_Z x))).
      rewrite Toy_Mul_point, Toy_Add_point. apply Toy_point_eq.
      rewrite !Z.mod_mod by done. rewrite Z.add_mod_idemp_r by done.
      f_equal. ring. }
    rewrite Heq. by rewrite Byte.byte_dec_lb.
Qed.

(** ** The further properties on the small instance *)

Lemma ProcessPartialSig_accept_iff_witness :
  fst (DSS.ProcessPartialSig Toy.ps1 (Toy.fresh 3 0 2)) = Done None /\
  snd (DSS.ProcessPartialSig Toy.ps1 (Toy.fresh 3 0 2))
    = recorded (PartialSig.Partial Toy.ps1) (Toy.fresh 3 0 2) /\
  snd (DSS.ProcessPartialSig Toy.ps1_wrong (Toy.fresh 3 0 2)) = Toy.fresh 3 0 2.
Proof.
  destruct (ProcessPartialSig_accept_iff (Toy.fresh 3 0 2) Toy.ps1) as (Hiff & Hrec & _).
  destruct (ProcessPartialSig_accept_iff (Toy.fresh 3 0 2) Toy.ps1_wrong) as (_ & _ & Hrej).
  assert (Hacc : fst (DSS.ProcessPartialSig Toy.ps1 (Toy.fresh 3 0 2)) = Done None).
  { apply Hiff. split; [simpl; lia|]. exists x07, 98. repeat split. }
  split; [exact Hacc|]. split; [exact (Hrec Hacc)|].
  apply Hrej. vm_compute. discriminate.
Defined.



Lemma after_calls_grows_witness :
  fst (DSS.EnoughPartialSig (after_calls Toy.calls Toy.complete)) = Done true.
Proof.
  apply (after_calls_grows Toy.calls Toy.complete). reflexivity.
Defined.

Lemma ProcessPartialSig_again_witness :
  DSS.ProcessPartialSig Toy.ps1
    (after_calls Toy.calls (recorded (PartialSig.Partial Toy.ps1) (Toy.fresh 3 0 2)))
  = (Done (Some (errors_New "dss: partial signature already received from peer")),
     after_calls Toy.calls (recorded (PartialSig.Partial Toy.ps1) (Toy.fresh 3 0 2))).
Proof.
  apply (ProcessPartialSig_again (Toy.fresh 3 0 2)). reflexivity.
Defined.

Lemma PartialSig_then_own_share_witness :
  let d1 := DSS.set_signed true (recorded (PartialSig.Partial Toy.ps0) (Toy.fresh 3 0 2)) in
  DSS.ProcessPartialSig Toy.ps0 (after_calls Toy.calls d1)
  = (Done (Some (errors_New "dss: partial signature already received from peer")),
     after_calls Toy.calls d1).
Proof.
  intros d1.
  apply (PartialSig_then_own_share (S:=Toy.suite) 3 Toy.participants (Toy.long 0)
           (Toy.random 0) Toy.message 2 (Toy.fresh 3 0 2) [] [x05] Toy.ps0 None d1
           Toy.calls x03); reflexivity.
Defined.

Lemma PartialSig_again_witness :
  let d1 := DSS.set_signed true (recorded (PartialSig.Partial Toy.ps0) (Toy.fresh 3 0 2)) in
  exists sig err2,
    DSS.PartialSig [x07] (after_calls Toy.calls d1)
    = (Done (PartialSig.mk _ (PriShare.mk _ 0 31) Toy.session_id sig, err2),
       after_calls Toy.calls d1).
Proof.
  intros d1.
  exact (PartialSig_again (S:=Toy.suite) [x05] [x07] (Toy.fresh 3 0 2) Toy.ps0 None d1
           Toy.calls eq_refl).
Defined.

Lemma PartialSig_other_session_witness :
  fst (DSS.ProcessPartialSig Toy.ps0 Toy.other)
    = Done (Some (errors_New "dss: session id do not match")) /\
  snd (DSS.ProcessPartialSig Toy.ps0 Toy.other) = Toy.other.
Proof.
  destruct (PartialSig_other_session (S:=Toy.suite) (P:=Toy.packages) [x05] (Toy.fresh 3 0 2) Toy.ps0 None
              (DSS.set_signed true
                 (recorded (PartialSig.Partial Toy.ps0) (Toy.fresh 3 0 2)))
              Toy.other eq_refl) as (_ & Hstate & Herr).
  { vm_compute. discriminate. }
  split; [|exact Hstate].
  apply (Herr x03); [simpl; lia|reflexivity|reflexivity].
Defined.

Lemma empty_commitments_witness :
  (forall r : list byte,
     DSS.PartialSig r Toy.uncommitted = (Panic (index_out_of_range 0 0), Toy.uncommitted)) /\
  after_calls Toy.calls Toy.uncommitted = Toy.uncommitted.
Proof.
  destruct (empty_commitments Toy.uncommitted) as (Hiss & _ & Hcalls).
  { left. reflexivity. }
  split; [exact Hiss|exact (Hcalls Toy.calls)].
Defined.

Lemma honest_share_accepted_witness :
  DSS.ProcessPartialSig Toy.ps1 (Toy.fresh 3 0 2)
  = (Done None, recorded (PartialSig.Partial Toy.ps1) (Toy.fresh 3 0 2)).
Proof.
  apply (honest_share_accepted Toy_laws Toy_schnorr_laws [x09] (Toy.fresh 7 1 2) Toy.ps1
           (DSS.set_signed true (recorded (PartialSig.Partial Toy.ps1) (Toy.fresh 7 1 2)))
           (Toy.fresh 3 0 2)); try reflexivity.
  simpl. lia.
Defined.

Lemma EnoughPartialSig_distinct_witness :
  Z.of_nat (size (DSS.partialsIdx (after_calls Toy.calls (Toy.fresh 3 0 2)))) >= 2.
Proof.
  destruct (EnoughPartialSig_distinct (S:=Toy.suite) 3 Toy.participants (Toy.long 0)
              (Toy.random 0) Toy.message 2 (Toy.fresh 3 0 2) Toy.calls eq_refl)
    as (_ & Hen).
  { split; [simpl; lia|exact I]. }
  apply Hen. reflexivity.
Defined.


